(** * QR-app: the encrypted-payload pipeline of [main.py]

    A shallow embedding of the core of [QRCodeGeneratorApp]: key handling
    ([load_or_generate_key]), settings ([load_settings], [save_settings],
    [save_settings_changes], [validate_path], [validate_color]), input
    validation ([validate_inputs]), serialisation ([collect_employee_data]),
    encryption ([encrypt_data]) and QR rendering ([create_qr_code_image]).

    Python values are modelled as follows:
    - [bytes] is [list byte];
    - [str] is a list of Unicode code points ([N]);
    - a raised exception is the [Raise] constructor of [outcome];
    - [dict] with string keys is [gmap string _];
    - the operating system (files, randomness) and the third-party
      libraries (AES block function, QR/imaging back end) are explicit
      parameters. *)

From Stdlib Require Import NArith ZArith List Lia Bool Ascii String.
From Stdlib.Strings Require Import Byte.
From stdpp Require Import base option list gmap strings.

Local Open Scope N_scope.

(** ** Exceptions *)

Inductive exn :=
| ValueError
| TypeError
| KeyError
| UnicodeEncodeError
| UnicodeDecodeError
| FileNotFoundError
| PermissionError
| JSONDecodeError
| OSError.

Inductive outcome (A : Type) :=
| Ok (a : A)
| Raise (e : exn).
Arguments Ok {A} a.
Arguments Raise {A} e.

#[global] Instance outcome_ret : MRet outcome := fun A a => Ok a.
#[global] Instance outcome_bind : MBind outcome := fun A B f m =>
  match m with
  | Ok a => f a
  | Raise e => Raise e
  end.

Definition is_ok {A} (m : outcome A) : bool :=
  match m with Ok _ => true | Raise _ => false end.

(** ** Bytes and text *)

Definition bytes := list byte.

(** A Python [str]: a sequence of code points. *)
Definition str := list N.

Definition byte_of_N (n : N) : byte :=
  match Byte.of_N n with
  | Some b => b
  | None => x00
  end.

Definition byte_xor (a b : byte) : byte :=
  byte_of_N (N.lxor (Byte.to_N a) (Byte.to_N b)).

(** [strxor] of two byte strings, as used by the CBC chaining. *)
Fixpoint strxor (a b : bytes) : bytes :=
  match a, b with
  | x :: a', y :: b' => byte_xor x y :: strxor a' b'
  | _, _ => []
  end.

(** *** UTF-8 ([str.encode('utf-8')] and [bytes.decode('utf-8')]) *)

Definition is_surrogate (c : N) : bool := (0xD800 <=? c) && (c <=? 0xDFFF).

Definition utf8_encode_cp (c : N) : outcome bytes :=
  if c <? 0x80 then Ok [byte_of_N c]
  else if c <? 0x800 then
    Ok [byte_of_N (0xC0 + c / 64); byte_of_N (0x80 + c mod 64)]
  else if c <? 0x10000 then
    if is_surrogate c then Raise UnicodeEncodeError
    else Ok [byte_of_N (0xE0 + c / 4096);
             byte_of_N (0x80 + (c / 64) mod 64);
             byte_of_N (0x80 + c mod 64)]
  else if c <? 0x110000 then
    Ok [byte_of_N (0xF0 + c / 262144);
        byte_of_N (0x80 + (c / 4096) mod 64);
        byte_of_N (0x80 + (c / 64) mod 64);
        byte_of_N (0x80 + c mod 64)]
  else Raise UnicodeEncodeError.

Fixpoint utf8_encode (s : str) : outcome bytes :=
  match s with
  | [] => Ok []
  | c :: s' =>
      match utf8_encode_cp c with
      | Ok b =>
          match utf8_encode s' with
          | Ok bs => Ok (b ++ bs)
          | Raise e => Raise e
          end
      | Raise e => Raise e
      end
  end.

Definition is_cont (b : byte) : bool :=
  (0x80 <=? Byte.to_N b) && (Byte.to_N b <? 0xC0).

Definition cont_bits (b : byte) : N := Byte.to_N b - 0x80.

Definition cons_cp (c : N) (r : outcome str) : outcome str :=
  match r with
  | Ok s => Ok (c :: s)
  | Raise e => Raise e
  end.

(** Strict decoder: overlong forms, surrogates and values above U+10FFFF
    are refused. *)
Fixpoint utf8_decode (bs : bytes) : outcome str :=
  match bs with
  | [] => Ok []
  | b0 :: r0 =>
      let n0 := Byte.to_N b0 in
      if n0 <? 0x80 then cons_cp n0 (utf8_decode r0)
      else if n0 <? 0xC2 then Raise UnicodeDecodeError
      else if n0 <? 0xE0 then
        match r0 with
        | b1 :: r1 =>
            if is_cont b1
            then cons_cp ((n0 - 0xC0) * 64 + cont_bits b1) (utf8_decode r1)
            else Raise UnicodeDecodeError
        | _ => Raise UnicodeDecodeError
        end
      else if n0 <? 0xF0 then
        match r0 with
        | b1 :: b2 :: r2 =>
            let c := (n0 - 0xE0) * 4096 + cont_bits b1 * 64 + cont_bits b2 in
            if is_cont b1 && is_cont b2 && (0x800 <=? c) && negb (is_surrogate c)
            then cons_cp c (utf8_decode r2)
            else Raise UnicodeDecodeError
        | _ => Raise UnicodeDecodeError
        end
      else if n0 <? 0xF5 then
        match r0 with
        | b1 :: b2 :: b3 :: r3 =>
            let c := (n0 - 0xF0) * 262144 + cont_bits b1 * 4096
                     + cont_bits b2 * 64 + cont_bits b3 in
            if is_cont b1 && is_cont b2 && is_cont b3
               && (0x10000 <=? c) && (c <? 0x110000)
            then cons_cp c (utf8_decode r3)
            else Raise UnicodeDecodeError
        | _ => Raise UnicodeDecodeError
        end
      else Raise UnicodeDecodeError
  end.

(** A source-text literal (the .py file is UTF-8) as a [str]. *)
Definition lit (s : string) : str :=
  match utf8_decode (list_byte_of_string s) with
  | Ok t => t
  | Raise _ => []
  end.

(** The text with no lone surrogate and no value above U+10FFFF: what
    [encode('utf-8')] accepts. *)
Definition is_scalar (c : N) : bool :=
  (c <? 0x110000) && negb (is_surrogate c).

Definition encodable (s : str) : bool := forallb is_scalar s.

#[global] Instance byte_eq_decision : EqDecision byte := Byte.byte_eq_dec.

(** [s.split(sep)] for a one-character separator. *)
Fixpoint split_on (sep : N) (s : str) : list str :=
  match s with
  | [] => [[]]
  | c :: s' =>
      if c =? sep then [] :: split_on sep s'
      else match split_on sep s' with
           | l :: ls => (c :: l) :: ls
           | [] => [[c]]
           end
  end.

(** [sep.join(parts)]. *)
Fixpoint join_with (sep : str) (parts : list str) : str :=
  match parts with
  | [] => []
  | [p] => p
  | p :: ps => p ++ sep ++ join_with sep ps
  end.

(** *** Base64 ([base64.b64encode], RFC 4648 standard alphabet) *)

Definition b64_alphabet : bytes :=
  list_byte_of_string
    "ABCDEFGHIJKLMNOPQRSTUVWXYZabcdefghijklmnopqrstuvwxyz0123456789+/".

Definition b64_pad : byte := x3d.

Definition b64_char (n : N) : byte := nth (N.to_nat n) b64_alphabet x00.

Fixpoint index_of (c : byte) (l : bytes) (i : N) : option N :=
  match l with
  | [] => None
  | x :: l' => if Byte.eqb x c then Some i else index_of c l' (i + 1)
  end.

Definition b64_index (c : byte) : option N := index_of c b64_alphabet 0.

Fixpoint b64encode (bs : bytes) : bytes :=
  match bs with
  | [] => []
  | [a] =>
      let x := Byte.to_N a in
      [b64_char (x / 4); b64_char ((x mod 4) * 16); b64_pad; b64_pad]
  | [a; b] =>
      let x := Byte.to_N a in
      let y := Byte.to_N b in
      [b64_char (x / 4); b64_char ((x mod 4) * 16 + y / 16);
       b64_char ((y mod 16) * 4); b64_pad]
  | a :: b :: c :: rest =>
      let x := Byte.to_N a in
      let y := Byte.to_N b in
      let z := Byte.to_N c in
      b64_char (x / 4) :: b64_char ((x mod 4) * 16 + y / 16)
        :: b64_char ((y mod 16) * 4 + z / 64) :: b64_char (z mod 64)
        :: b64encode rest
  end.

(** *** PKCS#7 ([Crypto.Util.Padding.pad]) *)

Definition pad (data_to_pad : bytes) (block_size : nat) : bytes :=
  let padding_len := (block_size - length data_to_pad mod block_size)%nat in
  data_to_pad ++ replicate padding_len (byte_of_N (N.of_nat padding_len)).

(** ** Randomness

    [get_random_bytes n] reads the next [n] bytes of the operating system's
    entropy stream; the stream is a parameter and the cursor is threaded
    through every call that draws from it. *)

Definition get_random_bytes (entropy : nat -> byte) (n : nat) (pos : nat)
  : bytes * nat :=
  (map entropy (seq pos n), (pos + n)%nat).

(** ** AES in CBC mode ([Crypto.Cipher.AES], [MODE_CBC])

    The block function of the AES library is a parameter:
    [aes_encrypt_block key block] is the 16-byte block permutation under
    [key]. *)

Definition AES_block_size : nat := 16.

Record cbc_cipher := mk_cipher { cipher_key : bytes; cipher_iv : bytes }.

Definition valid_key_length (n : nat) : bool :=
  (n =? 16)%nat || (n =? 24)%nat || (n =? 32)%nat.

Section Cipher.
Variable aes_encrypt_block : bytes -> bytes -> bytes.
Variable entropy : nat -> byte.

(** [AES.new(key, AES.MODE_CBC)]: the key length is checked first, then
    a 16-byte IV is drawn. *)
Definition AES_new (key : bytes) (pos : nat) : outcome cbc_cipher * nat :=
  if valid_key_length (length key) then
    let '(iv, pos') := get_random_bytes entropy AES_block_size pos in
    (Ok (mk_cipher key iv), pos')
  else (Raise ValueError, pos).

Fixpoint cbc_encrypt_blocks (n : nat) (key prev data : bytes) : bytes :=
  match n with
  | O => []
  | S n' =>
      let c := aes_encrypt_block key (strxor (take 16 data) prev) in
      c ++ cbc_encrypt_blocks n' key c (drop 16 data)
  end.

(** [cipher.encrypt(data)] *)
Definition cbc_encrypt (cipher : cbc_cipher) (data : bytes) : outcome bytes :=
  if (length data mod 16 =? 0)%nat then
    Ok (cbc_encrypt_blocks (length data / 16) (cipher_key cipher)
          (cipher_iv cipher) data)
  else Raise ValueError.

(** [encrypt_data] of the application. *)
Definition encrypt_data (KEY : bytes) (data : str) (pos : nat)
  : outcome str * nat :=
  match AES_new KEY pos with
  | (Raise e, pos') => (Raise e, pos')
  | (Ok cipher, pos') =>
      (plain ← utf8_encode data;
       ct_bytes ← cbc_encrypt cipher (pad plain AES_block_size);
       iv ← utf8_decode (b64encode (cipher_iv cipher));
       ct ← utf8_decode (b64encode ct_bytes);
       Ok (iv ++ lit ":" ++ ct), pos')
  end.
End Cipher.

(** The text of [base64.b64encode(bs).decode('utf-8')]. *)
Definition b64_text (bs : bytes) : str := map Byte.to_N (b64encode bs).

(** The envelope layout [<base64-iv>:<base64-ciphertext>]. *)
Definition envelope_of (iv ct : bytes) : str :=
  b64_text iv ++ 58 :: b64_text ct.

(** The IV that [AES.new] draws when the entropy cursor is at [pos]. *)
Definition random_iv (entropy : nat -> byte) (pos : nat) : bytes :=
  fst (get_random_bytes entropy AES_block_size pos).

(** ** The inverse operation *)

(** [main.py] has no decrypt operation.  The definitions of this part
    follow the inverse that the specification describes: parse the two
    base64 fields, AES-256-CBC decrypt under the key and the envelope's
    IV, unpad, decode. *)

(** Modelled from the spec: the base64 decoder of the inverse operation,
    which is missing from [main.py]; it reads the RFC 4648 alphabet with
    padding and refuses anything else. *)
Fixpoint b64decode (cs : bytes) : outcome bytes :=
  match cs with
  | [] => Ok []
  | c0 :: c1 :: c2 :: c3 :: rest =>
      match b64_index c0, b64_index c1 with
      | Some s0, Some s1 =>
          let o0 := byte_of_N (s0 * 4 + s1 / 16) in
          match rest with
          | [] =>
              if decide (c2 = b64_pad) then
                if decide (c3 = b64_pad) then Ok [o0] else Raise ValueError
              else
                match b64_index c2 with
                | Some s2 =>
                    let o1 := byte_of_N ((s1 mod 16) * 16 + s2 / 4) in
                    if decide (c3 = b64_pad) then Ok [o0; o1]
                    else match b64_index c3 with
                         | Some s3 =>
                             Ok [o0; o1; byte_of_N ((s2 mod 4) * 64 + s3)]
                         | None => Raise ValueError
                         end
                | None => Raise ValueError
                end
          | _ =>
              match b64_index c2, b64_index c3 with
              | Some s2, Some s3 =>
                  match b64decode rest with
                  | Ok r =>
                      Ok (o0 :: byte_of_N ((s1 mod 16) * 16 + s2 / 4)
                             :: byte_of_N ((s2 mod 4) * 64 + s3) :: r)
                  | Raise e => Raise e
                  end
              | _, _ => Raise ValueError
              end
          end
      | _, _ => Raise ValueError
      end
  | _ => Raise ValueError
  end.

(** Modelled from the spec: the unpadding step of the inverse operation,
    which is missing from [main.py]; written after
    [Crypto.Util.Padding.unpad]. *)
Definition unpad (padded_data : bytes) (block_size : nat) : outcome bytes :=
  let pdata_len := length padded_data in
  if (pdata_len =? 0)%nat then Raise ValueError
  else if negb (pdata_len mod block_size =? 0)%nat then Raise ValueError
  else
    let padding_len := N.to_nat (Byte.to_N (default x00 (last padded_data))) in
    if (padding_len <? 1)%nat || (Nat.min block_size pdata_len <? padding_len)%nat
    then Raise ValueError
    else if decide (drop (pdata_len - padding_len) padded_data
                    = replicate padding_len (byte_of_N (N.of_nat padding_len)))
    then Ok (take (pdata_len - padding_len) padded_data)
    else Raise ValueError.

Section Decipher.
Variable aes_decrypt_block : bytes -> bytes -> bytes.

(** Modelled from the spec: CBC decryption of the inverse operation, which
    is missing from [main.py]; each block is deciphered and combined with
    the previous ciphertext block (the IV for the first). *)
Fixpoint cbc_decrypt_blocks (n : nat) (key prev data : bytes) : bytes :=
  match n with
  | O => []
  | S n' =>
      let c := take 16 data in
      strxor (aes_decrypt_block key c) prev
        ++ cbc_decrypt_blocks n' key c (drop 16 data)
  end.

(** Modelled from the spec: [cipher.decrypt] of the inverse operation,
    which is missing from [main.py], with the checks on the lengths of
    key, IV and data. *)
Definition cbc_decrypt (key iv data : bytes) : outcome bytes :=
  if valid_key_length (length key) && (length iv =? 16)%nat
     && (length data mod 16 =? 0)%nat
  then Ok (cbc_decrypt_blocks (length data / 16) key iv data)
  else Raise ValueError.

(** Modelled from the spec: the decrypt operation, which is missing from
    [main.py]: parse the two base64 fields, AES-256-CBC decrypt under the
    same key and the envelope's IV, unpad, decode as UTF-8. *)
Definition decrypt_data (KEY : bytes) (envelope : str) : outcome str :=
  match split_on 58 envelope with
  | [iv_field; ct_field] =>
      iv_text ← utf8_encode iv_field;
      iv ← b64decode iv_text;
      ct_text ← utf8_encode ct_field;
      ct ← b64decode ct_text;
      padded ← cbc_decrypt KEY iv ct;
      plain ← unpad padded AES_block_size;
      utf8_decode plain
  | _ => Raise ValueError
  end.
End Decipher.

(** A block permutation on which the pipeline can be run: XOR with the
    first 16 bytes of the key.  The theorems take the block function as a
    parameter; this one instantiates them on examples. *)
Definition xor_block (key block : bytes) : bytes := strxor block (take 16 key).

Definition sample_entropy (i : nat) : byte :=
  byte_of_N (N.of_nat (7 * i + 3) mod 256).

Definition sample_key : bytes := map (fun i => byte_of_N (N.of_nat i)) (seq 1 32).

(** ** Text predicates and regular expressions *)

(** [str.isspace] on one code point (CPython's [_PyUnicode_IsWhitespace]). *)
Definition is_whitespace (c : N) : bool :=
  ((0x09 <=? c) && (c <=? 0x0D)) || ((0x1C <=? c) && (c <=? 0x20))
  || (c =? 0x85) || (c =? 0xA0) || (c =? 0x1680)
  || ((0x2000 <=? c) && (c <=? 0x200A))
  || (c =? 0x2028) || (c =? 0x2029) || (c =? 0x202F) || (c =? 0x205F)
  || (c =? 0x3000).

Fixpoint lstrip (s : str) : str :=
  match s with
  | [] => []
  | c :: s' => if is_whitespace c then lstrip s' else s
  end.

Definition rstrip (s : str) : str := rev (lstrip (rev s)).

(** [s.strip()] *)
Definition strip (s : str) : str := rstrip (lstrip s).

(** The fragment of Python's [re] syntax that the application uses.
    [Rep r lo hi] is the greedy repetition [r{lo,hi}]; [hi = None] is an
    open upper bound, so that [r+] is [Rep r 1 None]. *)
Inductive regex :=
| Bol                                     (* ^ *)
| Eol                                     (* $ *)
| Cls (p : N -> bool)                     (* one character of a class *)
| Cat (r1 r2 : regex)
| Rep (r : regex) (lo : nat) (hi : option nat).

(** A backtracking matcher in continuation-passing style.  [start] tells
    whether the current position is the beginning of the subject, [s] is
    the rest of the subject. *)
Definition matcher := bool -> str -> (bool -> str -> bool) -> bool.

Fixpoint rep_match (m : matcher) (lo n : nat) : matcher :=
  fun start s k =>
    match n with
    | O => match lo with O => k start s | S _ => false end
    | S n' =>
        m start s (fun st s' => rep_match m (pred lo) n' st s' k)
        || match lo with O => k start s | S _ => false end
    end.

Fixpoint rmatch (r : regex) : matcher :=
  fun start s k =>
    match r with
    | Bol => if start then k start s else false
    | Eol =>
        (* without MULTILINE: at the end, or just before a final newline *)
        match s with
        | [] => k start s
        | [c] => if c =? 10 then k start s else false
        | _ => false
        end
    | Cls p =>
        match s with
        | c :: s' => if p c then k false s' else false
        | [] => false
        end
    | Cat r1 r2 => rmatch r1 start s (fun st s' => rmatch r2 st s' k)
    | Rep r1 lo hi =>
        let n := match hi with Some h => h | None => (lo + length s)%nat end in
        rep_match (rmatch r1) lo n start s k
    end.

(** [re.match(pattern, s) is not None] *)
Definition re_match (r : regex) (s : str) : bool :=
  rmatch r true s (fun _ _ => true).

Definition ascii_digit (c : N) : bool := (48 <=? c) && (c <=? 57).

(** [\d] on a [str] pattern is the Unicode category Nd.  Its ASCII part is
    [0-9]; the table of the other decimal digits belongs to the Unicode
    database of the interpreter and is the parameter [nd_table]. *)
Definition class_d (nd_table : N -> bool) (c : N) : bool :=
  if c <? 128 then ascii_digit c else nd_table c.

(** [[0-9a-fA-F]] *)
Definition class_hex (c : N) : bool :=
  ascii_digit c || ((97 <=? c) && (c <=? 102)) || ((65 <=? c) && (c <=? 70)).

Definition class_char (x : N) (c : N) : bool := c =? x.

(** [r'^\d+$'] *)
Definition id_pattern (nd_table : N -> bool) : regex :=
  Cat Bol (Cat (Rep (Cls (class_d nd_table)) 1 None) Eol).

(** [r'^#(?:[0-9a-fA-F]{3}){1,2}$'] *)
Definition color_pattern : regex :=
  Cat Bol
    (Cat (Cls (class_char 35))
       (Cat (Rep (Rep (Cls class_hex) 3 (Some 3%nat)) 1 (Some 2%nat)) Eol)).

(** [validate_color] *)
Definition validate_color (color : str) : bool := re_match color_pattern color.

(** The end-of-subject test of [$]. *)
Definition at_eol (s : str) : bool :=
  match s with
  | [] => true
  | [c] => c =? 10
  | _ => false
  end.

(** The shape of the subjects that [color_pattern] accepts, written out. *)
Definition color_shape (s : str) : bool :=
  match s with
  | c0 :: h1 :: h2 :: h3 :: r =>
      (c0 =? 35) && class_hex h1 && class_hex h2 && class_hex h3
      && (at_eol r
          || match r with
             | h4 :: h5 :: h6 :: r' =>
                 class_hex h4 && class_hex h5 && class_hex h6 && at_eol r'
             | _ => false
             end)
  | _ => false
  end.

(** ** Input validation and serialisation *)

(** The four text fields of the form ([.value] of each). *)
Record form := mk_form {
  employee_name : str;
  employee_id : str;
  department : str;
  additional_info : str
}.

(** Truth value of a [str]. *)
Definition truthy (s : str) : bool :=
  match s with [] => false | _ => true end.

Definition msg_invalid_name : str :=
  lit "يجب إدخال اسم صحيح (أحرف على الأقل)".
Definition msg_invalid_id : str :=
  lit "يجب إدخال رقم وظيفي صحيح (أرقام فقط)".
Definition msg_invalid_department : str :=
  lit "يجب إدخال اسم قسم صحيح".

(** [validate_inputs] *)
Definition validate_inputs (nd_table : N -> bool) (f : form) : bool * str :=
  if negb (truthy (employee_name f))
     || (length (strip (employee_name f)) <? 2)%nat
  then (false, msg_invalid_name)
  else if negb (truthy (employee_id f))
          || negb (re_match (id_pattern nd_table) (employee_id f))
  then (false, msg_invalid_id)
  else if negb (truthy (department f))
          || (length (strip (department f)) <? 2)%nat
  then (false, msg_invalid_department)
  else (true, []).

Definition label_name : str := lit "الاسم: ".
Definition label_id : str := lit "الرقم الوظيفي: ".
Definition label_department : str := lit "القسم: ".
Definition label_notes : str := lit "معلومات إضافية: ".

Definition newline : str := [10].

(** [collect_employee_data] *)
Definition collect_employee_data (f : form) : str :=
  let data :=
    label_name ++ employee_name f ++ newline
    ++ label_id ++ employee_id f ++ newline
    ++ label_department ++ department f in
  if truthy (additional_info f)
  then data ++ newline ++ label_notes ++ additional_info f
  else data.

(** Modelled from the spec: [main.py] has no reader for the serialised
    record; this is the parser of "the four (or three, if notes empty)
    fixed labeled lines" that the specification's round trip refers to.
    The text is cut at newlines, each of the first three lines must carry
    its label, and whatever follows the notes label is the notes. *)
Fixpoint strip_prefix (p s : str) : option str :=
  match p, s with
  | [], _ => Some s
  | x :: p', y :: s' => if x =? y then strip_prefix p' s' else None
  | _ :: _, [] => None
  end.

(** Modelled from the spec: the reader of the labelled lines, which is
    missing from [main.py]. *)
Definition parse_employee_data (text : str) : option form :=
  match split_on 10 text with
  | l1 :: l2 :: l3 :: rest =>
      match strip_prefix label_name l1, strip_prefix label_id l2,
            strip_prefix label_department l3 with
      | Some n, Some i, Some d =>
          match rest with
          | [] => Some (mk_form n i d [])
          | l4 :: more =>
              match strip_prefix label_notes l4 with
              | Some x => Some (mk_form n i d (join_with newline (x :: more)))
              | None => None
              end
          end
      | _, _, _ => None
      end
  | _ => None
  end.

(** Records on which the serialisation is exercised. *)
Definition ascii_digits_only : N -> bool := fun _ => false.

Definition scenario_form : form :=
  mk_form (lit "محمد علي") (lit "12345") (lit "تقنية المعلومات") [].

Definition two_line_department_form : form :=
  mk_form (lit "Ali") (lit "7")
    (lit "IT" ++ newline ++ label_notes ++ lit "x") [].

Definition notes_form : form :=
  mk_form (lit "Ali") (lit "7") (lit "IT") (lit "x").

(** ** Files

    What the operating system does with a write to a file that the
    application opens with mode ['w'] / ['wb']. *)
Inductive write_behaviour :=
| WriteOk
| OpenFails (e : exn)                 (* [open] raises, the file is untouched *)
| WriteFails (written : nat) (e : exn).
                                      (* the file is created or truncated, then
                                         the write raises after [written] bytes *)

Inductive io_event :=
| EvOpenRead
| EvOpenWrite
| EvWrite (data : bytes)
| EvPrint (e : exn).

(** ** KeyStore: [load_or_generate_key] *)

(** The key file [encryption_key.bin] as the process finds it. *)
Record key_file := mk_key_file {
  kf_contents : option bytes;         (* [None]: [os.path.exists] is [False] *)
  kf_read_error : option exn;         (* [Some e]: opening or reading raises [e] *)
  kf_write : write_behaviour
}.

Record key_store := mk_key_store {
  KEY : option bytes;                 (* [self.KEY], unset before the call *)
  ks_file : option bytes;             (* contents of the key file afterwards *)
  ks_pos : nat;                       (* cursor in the entropy stream *)
  ks_log : list io_event
}.

Section KeyStore.
Variable entropy : nat -> byte.

(** The body of the [try] block. *)
Definition load_or_generate_key_try (kf : key_file) (pos : nat)
  : outcome unit * key_store :=
  match kf_contents kf with
  | Some c =>
      match kf_read_error kf with
      | None =>
          (Ok (), mk_key_store (Some c) (Some c) pos [EvOpenRead])
      | Some e =>
          (Raise e, mk_key_store None (Some c) pos [EvOpenRead])
      end
  | None =>
      let '(k, pos') := get_random_bytes entropy 32 pos in
      match kf_write kf with
      | WriteOk =>
          (Ok (), mk_key_store (Some k) (Some k) pos' [EvOpenWrite; EvWrite k])
      | OpenFails e =>
          (Raise e, mk_key_store (Some k) None pos' [EvOpenWrite])
      | WriteFails n e =>
          (Raise e,
           mk_key_store (Some k) (Some (take n k)) pos'
             [EvOpenWrite; EvWrite k])
      end
  end.

(** [load_or_generate_key]: the [try] block and its
    [except Exception] handler. *)
Definition load_or_generate_key (kf : key_file) (pos : nat) : key_store :=
  match load_or_generate_key_try kf pos with
  | (Ok _, ks) => ks
  | (Raise e, ks) =>
      let '(k, pos') := get_random_bytes entropy 32 (ks_pos ks) in
      mk_key_store (Some k) (ks_file ks) pos' (ks_log ks ++ [EvPrint e])
  end.
End KeyStore.

(** The events of a write to the key file. *)
Definition is_write_event (ev : io_event) : bool :=
  match ev with
  | EvOpenWrite | EvWrite _ => true
  | _ => false
  end.

(** Key files on which the key store is exercised. *)
Definition unreadable_key_file : key_file :=
  mk_key_file (Some sample_key) (Some PermissionError) WriteOk.

Definition unwritable_key_file : key_file :=
  mk_key_file None None (OpenFails PermissionError).

Definition full_disk_key_file : key_file :=
  mk_key_file None None (WriteFails 0 OSError).

Definition short_key_file : key_file :=
  mk_key_file (Some (take 16 sample_key)) None WriteOk.

(** What the specification words for a missing or unreadable key file:
    the 32 bytes drawn first are handed to the file and are the key in
    memory. *)
Definition persists_and_uses_first_draw (entropy : nat -> byte)
    (kf : key_file) (pos : nat) : Prop :=
  let r := load_or_generate_key entropy kf pos in
  let k := fst (get_random_bytes entropy 32 pos) in
  In (EvWrite k) (ks_log r) /\ KEY r = Some k.

(** ** SettingsStore *)

(** Values of the settings dictionary (what [json.load] can produce). *)
#[warnings="-register-all"]
Inductive json :=
| JNull
| JBool (b : bool)
| JNum (n : Z)
| JFloat (is_zero : bool)               (* a float; only its truth value matters *)
| JStr (s : str)
| JArr (l : list json)
| JObj (l : list (string * json)).

(** The top-level value that [json.load] returns. *)
Inductive loaded :=
| LDict (d : gmap string json)
| LStr (s : str)
| LList (l : list json)
| LScalar (v : json).                 (* number, [True], [False], [None] *)

(** The part of the file system that path validation sees. *)
Record filesystem := mk_filesystem {
  os_path_isabs : str -> bool;
  (* creating, writing and removing [test.txt] under the directory all
     succeed *)
  probe_succeeds : str -> bool
}.

(** [validate_path]: any exception gives [False]; [os.path.isabs] raises
    [TypeError] on a value that is not a path. *)
Definition validate_path (fs : filesystem) (path : json) : bool :=
  match path with
  | JStr p => if negb (os_path_isabs fs p) then false else probe_succeeds fs p
  | _ => false
  end.

(** [setup_app_settings]: the hard-coded defaults; [default_save_path] is
    [os.path.join(os.path.expanduser("~"), "QR-pass")]. *)
Definition setup_app_settings (default_save_path : str) : gmap string json :=
  <["save_path" := JStr default_save_path]>
  (<["auto_save" := JBool false]>
  (<["image_quality" := JStr (lit "عالية")]>
  (<["qr_size" := JStr (lit "متوسط")]>
  (<["qr_color" := JStr (lit "#000000")]>
  (<["qr_bg_color" := JStr (lit "#FFFFFF")]>
  (<["language" := JStr (lit "ar")]> ∅)))))).

(** [d.update(other)] *)
Definition dict_update (d other : gmap string json) : gmap string json :=
  other ∪ d.

Definition is_json_str (t : str) (v : json) : bool :=
  match v with
  | JStr s => bool_decide (s = t)
  | _ => false
  end.

Fixpoint is_prefix (p s : str) : bool :=
  match p, s with
  | [], _ => true
  | x :: p', y :: s' => (x =? y) && is_prefix p' s'
  | _ :: _, [] => false
  end.

(** [sub in s] on strings *)
Fixpoint contains (sub s : str) : bool :=
  is_prefix sub s || match s with [] => false | _ :: s' => contains sub s' end.

Definition caught_by_load_settings (e : exn) : bool :=
  match e with
  | FileNotFoundError | JSONDecodeError | PermissionError => true
  | _ => false
  end.

(** [load_settings].  [file] is [None] when [settings.json] does not
    exist, [Some (Raise e)] when opening or parsing it raises [e], and
    [Some (Ok v)] when [json.load] returns [v].  The result is the
    settings dictionary and what was printed, or the exception that
    leaves the method. *)
Definition load_settings (fs : filesystem) (file : option (outcome loaded))
    (app_settings : gmap string json)
  : outcome (gmap string json * list exn) :=
  let body : outcome (gmap string json) :=
    match file with
    | None => Ok app_settings
    | Some (Raise e) => Raise e
    | Some (Ok (LDict loaded_settings)) =>
        match loaded_settings !! "save_path" with
        | Some p =>
            if validate_path fs p
            then Ok (dict_update app_settings loaded_settings)
            else Ok app_settings
        | None => Ok app_settings
        end
    | Some (Ok (LStr s)) =>
        (* ['save_path' in s], then [s['save_path']] *)
        if contains (lit "save_path") s then Raise TypeError else Ok app_settings
    | Some (Ok (LList l)) =>
        if existsb (is_json_str (lit "save_path")) l
        then Raise TypeError else Ok app_settings
    | Some (Ok (LScalar _)) => Raise TypeError
    end in
  match body with
  | Ok d => Ok (d, [])
  | Raise e =>
      if caught_by_load_settings e then Ok (app_settings, [e]) else Raise e
  end.

Inductive message :=
| ErrorMessage (text : str)
| SuccessMessage (text : str).

(** The settings side of the application object. *)
Record settings_state := mk_settings_state {
  app_settings : gmap string json;
  settings_file : option (outcome loaded);
  messages : list message;            (* snack bars shown so far *)
  printed : list exn                  (* console output *)
}.

(** What the next [open] and [json.load] give for a settings file that
    holds the first [n] bytes of [text], the JSON text of the dictionary
    [d].  [f.read()] decodes the bytes as UTF-8 before anything is
    parsed.  The JSON text of a dictionary ends with the brace that
    closes it, so no proper prefix of it parses. *)
Definition json_load_truncated (text : bytes) (d : gmap string json)
    (n : nat) : outcome loaded :=
  if decide (length text <= n)%nat then Ok (LDict d)
  else _ ← utf8_decode (take n text); Raise JSONDecodeError.

Section SettingsWriter.
(** [json_dump d]: the bytes that
    [json.dump(d, f, ensure_ascii=False, indent=4)] hands to a file opened
    with [encoding='utf-8']. *)
Variable json_dump : gmap string json -> bytes.

(** [save_settings]: [json.dump] of [self.app_settings]; every exception
    is printed and swallowed.  [open(..., 'w')] empties the file, so a
    write that fails after [n] bytes leaves those [n] bytes. *)
Definition save_settings (w : write_behaviour) (st : settings_state)
  : settings_state :=
  match w with
  | WriteOk =>
      mk_settings_state (app_settings st)
        (Some (Ok (LDict (app_settings st)))) (messages st) (printed st)
  | OpenFails e =>
      mk_settings_state (app_settings st) (settings_file st) (messages st)
        (printed st ++ [e])
  | WriteFails n e =>
      mk_settings_state (app_settings st)
        (Some (json_load_truncated (json_dump (app_settings st))
                 (app_settings st) n))
        (messages st) (printed st ++ [e])
  end.

(** The controls of the settings card ([.value] of each). *)
Record settings_form := mk_settings_form {
  save_path_field : str;
  auto_save_switch : bool;
  image_quality_dropdown : option str;
  qr_size_dropdown : option str;
  qr_color_picker : str;
  qr_bg_color_picker : str;
  language_dropdown : option str
}.

Definition json_of_option (o : option str) : json :=
  match o with
  | Some s => JStr s
  | None => JNull
  end.

Definition show_message (m : message) (st : settings_state) : settings_state :=
  mk_settings_state (app_settings st) (settings_file st)
    (messages st ++ [m]) (printed st).

Definition msg_bad_path : str :=
  lit "مسار الحفظ غير صحيح أو غير قابل للكتابة".
Definition msg_bad_color : str :=
  lit "لون QR Code غير صحيح. استخدم تنسيق HEX مثل #000000".
Definition msg_bad_bg_color : str :=
  lit "لون خلفية QR Code غير صحيح. استخدم تنسيق HEX مثل #FFFFFF".
Definition msg_settings_saved : str := lit "تم حفظ الإعدادات بنجاح".

(** The dictionary literal that [save_settings_changes] passes to
    [update]. *)
Definition settings_of_form (f : settings_form) : gmap string json :=
  <["save_path" := JStr (save_path_field f)]>
  (<["auto_save" := JBool (auto_save_switch f)]>
  (<["image_quality" := json_of_option (image_quality_dropdown f)]>
  (<["qr_size" := json_of_option (qr_size_dropdown f)]>
  (<["qr_color" := JStr (qr_color_picker f)]>
  (<["qr_bg_color" := JStr (qr_bg_color_picker f)]>
  (<["language" := json_of_option (language_dropdown f)]> ∅)))))).

(** [save_settings_changes] *)
Definition save_settings_changes (fs : filesystem) (w : write_behaviour)
    (f : settings_form) (st : settings_state) : settings_state :=
  if negb (validate_path fs (JStr (save_path_field f)))
  then show_message (ErrorMessage msg_bad_path) st
  else if negb (validate_color (qr_color_picker f))
  then show_message (ErrorMessage msg_bad_color) st
  else if negb (validate_color (qr_bg_color_picker f))
  then show_message (ErrorMessage msg_bad_bg_color) st
  else
    let st1 :=
      mk_settings_state (dict_update (app_settings st) (settings_of_form f))
        (settings_file st) (messages st) (printed st) in
    let st2 := save_settings w st1 in
    show_message (SuccessMessage msg_settings_saved) st2.

(** The seven keys of the settings dictionary. *)
Definition settings_keys : list string :=
  ["save_path"; "auto_save"; "image_quality"; "qr_size"; "qr_color";
   "qr_bg_color"; "language"].

(** The three checks of [save_settings_changes] taken together. *)
Definition settings_form_valid (fs : filesystem) (f : settings_form) : bool :=
  validate_path fs (JStr (save_path_field f))
  && validate_color (qr_color_picker f)
  && validate_color (qr_bg_color_picker f).

(** The message of the first check that fails. *)
Definition first_violation (fs : filesystem) (f : settings_form) : str :=
  if negb (validate_path fs (JStr (save_path_field f))) then msg_bad_path
  else if negb (validate_color (qr_color_picker f)) then msg_bad_color
  else msg_bad_bg_color.

Definition msg_settings_reset : str := lit "تم استعادة الإعدادات الافتراضية".

(** The values of the seven controls of the settings card after
    [reset_settings]. *)
Definition default_settings_form (default_save_path : str) : settings_form :=
  mk_settings_form default_save_path false (Some (lit "عالية"))
    (Some (lit "متوسط")) (lit "#000000") (lit "#FFFFFF") (Some (lit "ar")).

(** [reset_settings]: the controls and the settings in memory take the
    hard-coded defaults, the settings are written and a message is shown;
    nothing is validated.  [default_save_path] is
    [os.path.join(os.path.expanduser("~"), "QR-pass")]. *)
Definition reset_settings (default_save_path : str) (w : write_behaviour)
    (st : settings_state) : settings_form * settings_state :=
  let default_settings := setup_app_settings default_save_path in
  let st1 :=
    mk_settings_state (dict_update (app_settings st) default_settings)
      (settings_file st) (messages st) (printed st) in
  let st2 := save_settings w st1 in
  (default_settings_form default_save_path,
   show_message (SuccessMessage msg_settings_reset) st2).
End SettingsWriter.

(** A file system and settings on which the store is exercised: every
    path that starts with a slash is absolute and writable. *)
Definition permissive_fs : filesystem :=
  mk_filesystem (fun p => is_prefix [47] p) (fun _ => true).

Definition default_settings : gmap string json :=
  setup_app_settings (lit "/home/user/QR-pass").

Definition initial_settings_state : settings_state :=
  mk_settings_state default_settings None [] [].

Definition red_form : settings_form :=
  mk_settings_form (lit "/srv/qr") true (Some (lit "عالية"))
    (Some (lit "متوسط")) (lit "#FF0000") (lit "#FFFFFF") (Some (lit "ar")).

(** A JSON writer on which the store is exercised: the text that
    [json.dump(..., ensure_ascii=False, indent=4)] writes for a dictionary
    that holds the seven settings in the order of [setup_app_settings],
    each a string without a character to escape, a boolean or [null]. *)
Definition sample_json_value (v : json) : str :=
  match v with
  | JStr s => [34] ++ s ++ [34]
  | JBool true => lit "true"
  | JBool false => lit "false"
  | _ => lit "null"
  end.

Definition sample_json_item (d : gmap string json) (k : string) : str :=
  lit "    " ++ [34] ++ lit k ++ [34] ++ lit ": "
  ++ sample_json_value (default JNull (d !! k)).

Definition sample_json_dump (d : gmap string json) : bytes :=
  match utf8_encode
          (lit "{" ++ [10]
           ++ join_with (lit "," ++ [10])
                (map (sample_json_item d) settings_keys)
           ++ [10] ++ lit "}") with
  | Ok bs => bs
  | Raise _ => []
  end.

(** A settings file whose [save_path] is relative. *)
Definition relative_path_file : gmap string json :=
  <["save_path" := JStr (lit "relative/dir")]>
  (<["auto_save" := JBool true]> ∅).

(** A settings file with a colour name and a key the application does not
    know. *)
Definition named_color_file : gmap string json :=
  <["save_path" := JStr (lit "/srv/qr")]>
  (<["qr_color" := JStr (lit "red")]>
  (<["theme" := JStr (lit "dark")]> ∅)).

(** ** QRImageEncoder and the generation pipeline *)

(** [d[k]] *)
Definition dict_index (d : gmap string json) (k : string) : outcome json :=
  match d !! k with
  | Some v => Ok v
  | None => Raise KeyError
  end.

(** [mapping.get(key, default)] for a dictionary literal with [str] keys;
    a list or a dictionary is not hashable. *)
Definition mapping_get (mapping : list (str * Z)) (key : json) (dflt : Z)
  : outcome Z :=
  match key with
  | JStr s =>
      Ok (match find (fun kv => bool_decide (fst kv = s)) mapping with
          | Some kv => snd kv
          | None => dflt
          end)
  | JArr _ | JObj _ => Raise TypeError
  | _ => Ok dflt
  end.

(** [get_qr_size] *)
Definition get_qr_size (settings : gmap string json) : outcome Z :=
  v ← dict_index settings "qr_size";
  mapping_get
    [(lit "صغير", 200%Z); (lit "متوسط", 300%Z); (lit "كبير", 400%Z);
     (lit "كبير جداً", 500%Z)] v 300%Z.

(** [get_image_quality] *)
Definition get_image_quality (settings : gmap string json) : outcome Z :=
  v ← dict_index settings "image_quality";
  mapping_get
    [(lit "عالية جداً", 100%Z); (lit "عالية", 90%Z); (lit "متوسطة", 75%Z);
     (lit "منخفضة", 50%Z)] v 90%Z.

(** Truth value of a settings value ([if self.app_settings["auto_save"]]). *)
Definition json_truthy (v : json) : bool :=
  match v with
  | JNull => false
  | JBool b => b
  | JNum n => negb (n =? 0)%Z
  | JFloat z => negb z
  | JStr s => truthy s
  | JArr l => match l with [] => false | _ => true end
  | JObj l => match l with [] => false | _ => true end
  end.

Inductive event :=
| ShowError (text : str)
| ShowGenerationError (e : exn)
| ShowSuccess (text : str)
| ShowLoading (on : bool)
| StageSerialize                          (* [collect_employee_data] entered *)
| StageEncrypt (data : str)               (* [encrypt_data] entered *)
| StageEncode (envelope : str)            (* [create_qr_code_image] entered *)
| StageWrite                              (* [save_qr_code] entered *)
| FileWritten (path : str) (data : bytes)
| SaveResult (ok : bool)
| ShowSaveError (e : exn).

(** The application object as far as generation is concerned. *)
Record application := mk_app {
  fields : form;
  app_key : bytes;                        (* [self.KEY] *)
  cfg : gmap string json;                 (* [self.app_settings] *)
  rng_pos : nat;
  qr_image : option (str * Z);            (* [src_base64] and size when shown *)
  trace : list event
}.

(** [self.qr_image.src_base64]: the control is created with the empty
    text and holds the image text from the first generation on. *)
Definition src_base64 (a : application) : str :=
  match qr_image a with
  | Some (img_str, _) => img_str
  | None => []
  end.

Definition log (ev : event) (a : application) : application :=
  mk_app (fields a) (app_key a) (cfg a) (rng_pos a) (qr_image a)
    (trace a ++ [ev]).

Definition set_rng (pos : nat) (a : application) : application :=
  mk_app (fields a) (app_key a) (cfg a) pos (qr_image a) (trace a).

Definition set_qr_image (img : str) (size : Z) (a : application) : application :=
  mk_app (fields a) (app_key a) (cfg a) (rng_pos a) (Some (img, size))
    (trace a).

Definition msg_generated : str := lit "تم توليد QR Code بنجاح".
Definition msg_saved : str := lit "تم حفظ QR Code بنجاح".

Section Pipeline.
(** The QR and imaging libraries: [make_image data fill back] stands for
    [QRCode(...)], [add_data], [make(fit=True)] and [make_image] with
    the two colours, [save_png img quality] for [img.save] into the
    buffer. *)
Variable image : Type.
Variable make_image : str -> json -> json -> outcome image.
Variable save_png : image -> Z -> outcome bytes.

(** [os.path.exists], [os.makedirs], [os.path.join] and writing a file. *)
Variable path_exists : json -> outcome bool.
Variable makedirs : json -> outcome unit.
Variable path_join : json -> str -> outcome str.
Variable write_file : str -> bytes -> outcome unit.

(** [base64.b64decode] of the standard library, applied to a [str]. *)
Variable base64_b64decode : str -> outcome bytes.

Variable aes_encrypt_block : bytes -> bytes -> bytes.
Variable entropy : nat -> byte.
Variable nd_table : N -> bool.

(** [create_qr_code_image] *)
Definition create_qr_code_image (settings : gmap string json) (data : str)
    (size : Z) : outcome str :=
  img ← make_image data
          (default (JStr (lit "#000000")) (settings !! "qr_color"))
          (default (JStr (lit "#FFFFFF")) (settings !! "qr_bg_color"));
  quality ← get_image_quality settings;
  png ← save_png img quality;
  utf8_decode (b64encode png).

(** [save_qr_code].  Failing to create the directory sets the result line
    and returns; a failure while decoding or writing the image sets the
    result line and shows an error message; the path operations before
    the inner [try] are not guarded. *)
Definition save_qr_code (a : application) : outcome unit * application :=
  let a := log StageWrite a in
  match dict_index (cfg a) "save_path" with
  | Raise e => (Raise e, a)
  | Ok save_path =>
      match path_exists save_path with
      | Raise e => (Raise e, a)
      | Ok present =>
          let made := if present then Ok () else makedirs save_path in
          match made with
          | Raise _ => (Ok (), log (SaveResult false) a)
          | Ok _ =>
              match path_join save_path
                      (lit "qr_code_" ++ employee_id (fields a) ++ lit ".png")
              with
              | Raise e => (Raise e, a)
              | Ok file_path =>
                  match (img_data ← base64_b64decode (src_base64 a);
                         _ ← write_file file_path img_data;
                         Ok img_data) with
                  | Raise ex =>
                      (Ok (), log (ShowSaveError ex) (log (SaveResult false) a))
                  | Ok img_data =>
                      (Ok (),
                       log (ShowSuccess msg_saved)
                         (log (SaveResult true)
                            (log (FileWritten file_path img_data) a)))
                  end
              end
          end
      end
  end.

(** The [try] block of [generate_qr_code]. *)
Definition generate_try (a : application) : outcome unit * application :=
  let a := log StageSerialize a in
  let data := collect_employee_data (fields a) in
  let a := log (StageEncrypt data) a in
  match encrypt_data aes_encrypt_block entropy (app_key a) data (rng_pos a) with
  | (Raise e, pos) => (Raise e, set_rng pos a)
  | (Ok encrypted_data, pos) =>
      let a := set_rng pos a in
      match get_qr_size (cfg a) with
      | Raise e => (Raise e, a)
      | Ok qr_size =>
          let a := log (StageEncode encrypted_data) a in
          match create_qr_code_image (cfg a) encrypted_data qr_size with
          | Raise e => (Raise e, a)
          | Ok img_str =>
              let a := set_qr_image img_str qr_size a in
              match dict_index (cfg a) "auto_save" with
              | Raise e => (Raise e, a)
              | Ok auto =>
                  let '(r, a) :=
                    if json_truthy auto then save_qr_code a else (Ok (), a) in
                  match r with
                  | Raise e => (Raise e, a)
                  | Ok _ => (Ok (), log (ShowSuccess msg_generated) a)
                  end
              end
          end
      end
  end.

(** [generate_qr_code] *)
Definition generate_qr_code (a : application) : application :=
  let '(is_valid, error_msg) := validate_inputs nd_table (fields a) in
  if negb is_valid then log (ShowError error_msg) a
  else
    let a := log (ShowLoading true) a in
    let a :=
      match generate_try a with
      | (Ok _, a') => a'
      | (Raise ex, a') => log (ShowGenerationError ex) a'
      end in
    log (ShowLoading false) a.
End Pipeline.

(** An imaging back end used to exercise the encoder: like the colour
    parser of the imaging library it takes hexadecimal colours and colour
    names, and refuses anything else. *)
Definition sample_color_ok (c : json) : bool :=
  match c with
  | JStr s =>
      validate_color s
      || bool_decide (s = lit "red") || bool_decide (s = lit "black")
      || bool_decide (s = lit "white")
  | _ => false
  end.

Definition sample_make_image (data : str) (fill back : json)
  : outcome (str * json * json) :=
  if sample_color_ok fill && sample_color_ok back
  then Ok (data, fill, back)
  else Raise ValueError.

Definition sample_save_png (img : str * json * json) (quality : Z)
  : outcome bytes :=
  Ok (list_byte_of_string "PNG").

(** The settings after loading [named_color_file] over the defaults. *)
Definition named_color_settings : gmap string json :=
  dict_update default_settings named_color_file.

(** An operating system on which the pipeline is exercised: every
    directory exists and every file can be written. *)
Definition sample_path_exists (p : json) : outcome bool :=
  match p with
  | JStr _ => Ok true
  | _ => Raise TypeError
  end.

Definition sample_makedirs (p : json) : outcome unit := Ok ().

Definition sample_path_join (dir : json) (name : str) : outcome str :=
  match dir with
  | JStr d => Ok (d ++ lit "/" ++ name)
  | _ => Raise TypeError
  end.

Definition sample_write_file (path : str) (data : bytes) : outcome unit :=
  Ok ().

Definition sample_b64decode (s : str) : outcome bytes :=
  b ← utf8_encode s; b64decode b.

Definition sample_application : application :=
  mk_app scenario_form sample_key default_settings 0 None [].

Definition autosave_application : application :=
  mk_app scenario_form sample_key
    (<["auto_save" := JBool true]> default_settings) 0 None [].

Definition empty_key_application : application :=
  mk_app scenario_form [] default_settings 0 None [].

(** An operating system on which no directory exists or can be made. *)
Definition missing_path_exists (p : json) : outcome bool := Ok false.

Definition failing_makedirs (p : json) : outcome unit := Raise PermissionError.

(** The UTF-8 bytes of the serialised [scenario_form]. *)
Definition scenario_plain : bytes :=
  match utf8_encode (collect_employee_data scenario_form) with
  | Ok b => b
  | Raise _ => []
  end.

(** The envelope of [scenario_form] under [sample_key] with the first
    IV of [sample_entropy]. *)
Definition scenario_envelope : str :=
  envelope_of (random_iv sample_entropy 0)
    (cbc_encrypt_blocks xor_block (length (pad scenario_plain 16) / 16)
       sample_key (random_iv sample_entropy 0) (pad scenario_plain 16)).

(** * Properties *)

(** ** Bytes *)

Lemma to_N_lt (b : byte) : Byte.to_N b < 256.
Proof. pose proof (Byte.to_N_bounded b). lia. Qed.

Lemma to_N_byte_of_N n : n < 256 -> Byte.to_N (byte_of_N n) = n.
Proof.
  intros H. unfold byte_of_N.
  destruct (Byte.of_N n) as [b|] eqn:E.
  - by apply Byte.to_of_N.
  - apply Byte.of_N_None_iff in E. lia.
Qed.

Lemma byte_of_N_to_N b : byte_of_N (Byte.to_N b) = b.
Proof. unfold byte_of_N. by rewrite Byte.of_to_N. Qed.

Lemma to_N_inj a b : Byte.to_N a = Byte.to_N b -> a = b.
Proof. intros H. rewrite <- (byte_of_N_to_N a), <- (byte_of_N_to_N b). by rewrite H. Qed.

Lemma lxor_lt_256 x y : x < 256 -> y < 256 -> N.lxor x y < 256.
Proof.
  intros Hx Hy.
  destruct (N.eq_dec (N.lxor x y) 0) as [->|Hne]; [lia|].
  apply N.log2_lt_pow2 with (b := 8); [lia|].
  eapply N.le_lt_trans; [apply N.log2_lxor|].
  apply N.max_lub_lt.
  - destruct (N.eq_dec x 0) as [->|]; [simpl; lia|]. apply N.log2_lt_pow2; lia.
  - destruct (N.eq_dec y 0) as [->|]; [simpl; lia|]. apply N.log2_lt_pow2; lia.
Qed.

Lemma byte_xor_cancel a b : byte_xor (byte_xor a b) b = a.
Proof.
  unfold byte_xor. rewrite to_N_byte_of_N.
  - rewrite N.lxor_assoc, N.lxor_nilpotent, N.lxor_0_r. apply byte_of_N_to_N.
  - apply lxor_lt_256; apply to_N_lt.
Qed.

Lemma strxor_length a b : length (strxor a b) = Nat.min (length a) (length b).
Proof. revert b; induction a as [|x a IH]; intros [|y b]; simpl; auto. Qed.

Lemma strxor_cancel a b : length a = length b -> strxor (strxor a b) b = a.
Proof.
  revert b; induction a as [|x a IH]; intros [|y b] H; simpl in *; try done.
  rewrite byte_xor_cancel, IH; auto.
Qed.

(** ** Base64 *)

Ltac Zify.zify_post_hook ::= Z.to_euclidean_division_equations.

Lemma b64_table_ok :
  Forall (fun i => b64_index (b64_char (N.of_nat i)) = Some (N.of_nat i)
                   /\ b64_char (N.of_nat i) <> b64_pad
                   /\ Byte.to_N (b64_char (N.of_nat i)) < 128
                   /\ Byte.to_N (b64_char (N.of_nat i)) <> 58)
         (seq 0 64).
Proof.
  repeat (apply Forall_cons; split; [vm_compute; repeat split; congruence|]).
  apply Forall_nil. done.
Qed.

Lemma b64_char_spec n :
  n < 64 ->
  b64_index (b64_char n) = Some n /\ b64_char n <> b64_pad
  /\ Byte.to_N (b64_char n) < 128 /\ Byte.to_N (b64_char n) <> 58.
Proof.
  intros H. pose proof b64_table_ok as T.
  rewrite Forall_forall in T.
  specialize (T (N.to_nat n)). rewrite N2Nat.id in T. apply T.
  apply elem_of_seq. lia.
Qed.

Lemma b64_index_char n : n < 64 -> b64_index (b64_char n) = Some n.
Proof. intros H. apply b64_char_spec, H. Qed.

Lemma b64_char_not_pad n : n < 64 -> b64_char n <> b64_pad.
Proof. intros H. apply b64_char_spec, H. Qed.

Lemma b64_pad_index : b64_index b64_pad = None.
Proof. reflexivity. Qed.

Ltac b64_arith :=
  repeat match goal with
         | b : byte |- _ =>
             lazymatch goal with
             | H : Byte.to_N b < 256 |- _ => fail
             | _ => pose proof (to_N_lt b)
             end
         end; lia.

Lemma byte_of_N_eq n a : n = Byte.to_N a -> byte_of_N n = a.
Proof. intros ->. apply byte_of_N_to_N. Qed.

Lemma b64decode_encode bs : b64decode (b64encode bs) = Ok bs.
Proof.
  remember (length bs) as n eqn:Hn. revert bs Hn.
  induction n as [n IH] using lt_wf_ind. intros bs Hn.
  destruct bs as [|a [|b [|c rest]]].
  - reflexivity.
  - cbn [b64encode b64decode].
    rewrite !b64_index_char by b64_arith.
    rewrite !decide_True by reflexivity.
    do 2 f_equal. apply byte_of_N_eq. b64_arith.
  - cbn [b64encode b64decode].
    rewrite !b64_index_char by b64_arith.
    rewrite decide_False by (apply b64_char_not_pad; b64_arith).
    rewrite decide_True by reflexivity.
    f_equal. f_equal; [|f_equal]; apply byte_of_N_eq; b64_arith.
  - cbn [b64encode b64decode].
    rewrite !b64_index_char by b64_arith.
    assert (Hrest : b64decode (b64encode rest) = Ok rest).
    { apply (IH (length rest)); [subst n; simpl; lia | reflexivity]. }
    rewrite (byte_of_N_eq _ a) by b64_arith.
    rewrite (byte_of_N_eq _ b) by b64_arith.
    rewrite (byte_of_N_eq _ c) by b64_arith.
    destruct (b64encode rest) as [|r0 rs] eqn:Er.
    + rewrite !decide_False by (apply b64_char_not_pad; b64_arith).
      destruct rest as [|? [|? [|? ?]]]; simpl in Er; try discriminate. reflexivity.
    + rewrite Hrest. reflexivity.
Qed.

(** every character of the encoding is ASCII and none is a colon *)
Lemma b64encode_chars bs :
  Forall (fun c => Byte.to_N c < 128 /\ Byte.to_N c <> 58) (b64encode bs).
Proof.
  remember (length bs) as n eqn:Hn. revert bs Hn.
  induction n as [n IH] using lt_wf_ind. intros bs Hn.
  assert (P : forall k, k < 64 ->
            Byte.to_N (b64_char k) < 128 /\ Byte.to_N (b64_char k) <> 58).
  { intros k Hk. apply b64_char_spec, Hk. }
  assert (Q : Byte.to_N b64_pad < 128 /\ Byte.to_N b64_pad <> 58).
  { vm_compute. split; [reflexivity | discriminate]. }
  destruct bs as [|a [|b [|c rest]]]; cbn [b64encode].
  - constructor.
  - repeat (constructor; [first [exact Q | apply P; b64_arith]|]). constructor.
  - repeat (constructor; [first [exact Q | apply P; b64_arith]|]). constructor.
  - repeat (constructor; [first [exact Q | apply P; b64_arith]|]).
    apply (IH (length rest)); [subst n; simpl; lia | reflexivity].
Qed.

(** ** UTF-8 *)

Ltac to_N_simpl :=
  repeat match goal with
         | |- context [Byte.to_N (byte_of_N ?n)] =>
             rewrite (to_N_byte_of_N n) by lia
         end.

Ltac bool_cases :=
  repeat match goal with
         | |- context [?a <? ?b] => destruct (N.ltb_spec a b); try lia
         | |- context [?a <=? ?b] => destruct (N.leb_spec a b); try lia
         end.

Lemma utf8_decode_encode_cp c b rest :
  utf8_encode_cp c = Ok b ->
  utf8_decode (b ++ rest) = cons_cp c (utf8_decode rest).
Proof.
  unfold utf8_encode_cp, is_surrogate.
  destruct (N.ltb_spec c 0x80).
  { intros [= <-]. cbn [app utf8_decode]. to_N_simpl. bool_cases. reflexivity. }
  destruct (N.ltb_spec c 0x800).
  { intros [= <-]. cbn [app utf8_decode]. unfold is_cont, cont_bits.
    to_N_simpl. bool_cases. cbn [andb]. f_equal. lia. }
  destruct (N.ltb_spec c 0x10000).
  { destruct (N.leb_spec 0xD800 c); destruct (N.leb_spec c 0xDFFF);
      cbn [andb]; try discriminate;
      intros [= <-]; cbn [app utf8_decode]; unfold is_cont, cont_bits, is_surrogate;
      to_N_simpl; bool_cases; cbn [andb negb];
      match goal with |- cons_cp ?x _ = cons_cp ?y _ => replace x with y by lia end;
      bool_cases; reflexivity. }
  destruct (N.ltb_spec c 0x110000); [|discriminate].
  intros [= <-]. cbn [app utf8_decode]. unfold is_cont, cont_bits.
  to_N_simpl. bool_cases. cbn [andb].
  match goal with |- context [cons_cp ?x _] =>
    replace x with c by lia end.
  bool_cases. reflexivity.
Qed.

Lemma utf8_decode_encode s b : utf8_encode s = Ok b -> utf8_decode b = Ok s.
Proof.
  revert b. induction s as [|c s IH]; intros b; simpl.
  - by intros [= <-].
  - destruct (utf8_encode_cp c) as [bc|] eqn:Ec; [|discriminate].
    destruct (utf8_encode s) as [bs|] eqn:Es; [|discriminate].
    intros [= <-]. rewrite (utf8_decode_encode_cp _ _ _ Ec), (IH _ eq_refl).
    reflexivity.
Qed.

Lemma utf8_encode_cp_scalar c : is_scalar c = true -> is_ok (utf8_encode_cp c) = true.
Proof.
  unfold is_scalar, utf8_encode_cp. intros [H1 H2]%andb_true_iff.
  apply negb_true_iff in H2. rewrite H1, H2.
  repeat match goal with |- context [if ?b then _ else _] => destruct b end; reflexivity.
Qed.

Lemma utf8_encode_encodable s :
  encodable s = true -> exists b, utf8_encode s = Ok b.
Proof.
  unfold encodable. induction s as [|c s IH]; simpl.
  - eauto.
  - intros [Hc Hs]%andb_true_iff. destruct (IH Hs) as [bs ->].
    pose proof (utf8_encode_cp_scalar c Hc) as Hok.
    destruct (utf8_encode_cp c); [eauto | discriminate].
Qed.

Lemma utf8_decode_ascii bs :
  Forall (fun c => Byte.to_N c < 128) bs ->
  utf8_decode bs = Ok (map Byte.to_N bs).
Proof.
  induction 1 as [|c bs Hc _ IH]; [reflexivity|].
  cbn [utf8_decode map]. destruct (N.ltb_spec (Byte.to_N c) 128); [|lia].
  rewrite IH. reflexivity.
Qed.

Lemma utf8_encode_ascii bs :
  Forall (fun c => Byte.to_N c < 128) bs ->
  utf8_encode (map Byte.to_N bs) = Ok bs.
Proof.
  induction 1 as [|c bs Hc _ IH]; [reflexivity|].
  cbn [utf8_encode map]. unfold utf8_encode_cp.
  destruct (N.ltb_spec (Byte.to_N c) 128); [|lia].
  rewrite IH, byte_of_N_to_N. reflexivity.
Qed.

(** ** PKCS#7 padding *)
Lemma pad_length d : (length (pad d 16) mod 16 = 0 /\ 0 < length (pad d 16))%nat.
Proof.
  unfold pad. rewrite length_app, length_replicate.
  pose proof (Nat.mod_upper_bound (length d) 16 ltac:(lia)) as Hm.
  pose proof (Nat.div_mod_eq (length d) 16) as Hd.
  split; [|lia].
  replace (length d + (16 - length d mod 16))%nat
    with ((length d / 16 + 1) * 16)%nat by lia.
  apply Nat.Div0.mod_mul.
Qed.

Lemma unpad_pad d : unpad (pad d 16) 16 = Ok d.
Proof.
  pose proof (pad_length d) as [Hmod Hpos].
  unfold unpad. rewrite Hmod.
  destruct (Nat.eqb_spec (length (pad d 16)) 0) as [Hz|_]; [lia|].
  cbn [negb Nat.eqb].
  unfold pad in *.
  pose proof (Nat.mod_upper_bound (length d) 16 ltac:(lia)) as Hm.
  set (p := (16 - length d mod 16)%nat) in *.
  assert (Hp : (1 <= p <= 16)%nat) by (subst p; lia).
  assert (Hlast : default x00 (last (d ++ replicate p (byte_of_N (N.of_nat p))))
                  = byte_of_N (N.of_nat p)).
  { destruct p as [|p']; [lia|].
    rewrite replicate_S_end, app_assoc, last_snoc. reflexivity. }
  rewrite Hlast, to_N_byte_of_N by lia. rewrite Nat2N.id.
  rewrite length_app, length_replicate in *.
  destruct (Nat.ltb_spec p 1); [lia|].
  destruct (Nat.ltb_spec (Nat.min 16 (length d + p)) p); [lia|].
  cbn [orb].
  replace (length d + p - p)%nat with (length d) by lia.
  rewrite drop_app_length, take_app_length.
  rewrite decide_True by reflexivity. reflexivity.
Qed.

(** ** Splitting at a separator *)
Lemma split_on_none sep s : Forall (fun c => c <> sep) s -> split_on sep s = [s].
Proof.
  induction 1 as [|c s Hc _ IH]; [reflexivity|].
  simpl. destruct (N.eqb_spec c sep); [contradiction|]. by rewrite IH.
Qed.

Lemma split_on_app sep a b :
  Forall (fun c => c <> sep) a ->
  split_on sep (a ++ sep :: b) = a :: split_on sep b.
Proof.
  induction 1 as [|c s Hc _ IH]; simpl.
  - by rewrite N.eqb_refl.
  - destruct (N.eqb_spec c sep); [contradiction|]. by rewrite IH.
Qed.

(** ** CBC chaining *)

Section CBC.
Variables E D : bytes -> bytes -> bytes.
Variable key : bytes.
Hypothesis block_permutation :
  forall b, length b = 16%nat ->
            length (E key b) = 16%nat /\ D key (E key b) = b.

Lemma cbc_encrypt_blocks_length n : forall prev data,
  length prev = 16%nat -> length data = (16 * n)%nat ->
  length (cbc_encrypt_blocks E n key prev data) = (16 * n)%nat.
Proof using block_permutation.
  induction n as [|n IH]; intros prev data Hp Hd; [reflexivity|].
  cbn [cbc_encrypt_blocks].
  assert (Hx : length (strxor (take 16 data) prev) = 16%nat).
  { rewrite strxor_length, length_take. lia. }
  destruct (block_permutation _ Hx) as [Hl _].
  rewrite length_app, Hl, IH; [lia | exact Hl |].
  rewrite length_drop. lia.
Qed.

Lemma cbc_decrypt_encrypt_blocks n : forall prev data,
  length prev = 16%nat -> length data = (16 * n)%nat ->
  cbc_decrypt_blocks D n key prev (cbc_encrypt_blocks E n key prev data)
  = data.
Proof using block_permutation.
  induction n as [|n IH]; intros prev data Hp Hd.
  - destruct data; [reflexivity | discriminate].
  - cbn [cbc_encrypt_blocks cbc_decrypt_blocks].
    assert (Hx : length (strxor (take 16 data) prev) = 16%nat).
    { rewrite strxor_length, length_take. lia. }
    destruct (block_permutation _ Hx) as [Hl Hinv].
    rewrite take_app_length' by (symmetry; exact Hl).
    rewrite drop_app_length' by (symmetry; exact Hl).
    rewrite Hinv, strxor_cancel by (rewrite length_take; lia).
    rewrite IH; [apply take_drop | exact Hl |].
    rewrite length_drop. lia.
Qed.
End CBC.

(** ** The ciphertext envelope *)

Lemma b64_text_decode bs :
  utf8_decode (b64encode bs) = Ok (b64_text bs).
Proof.
  apply utf8_decode_ascii. eapply Forall_impl; [apply b64encode_chars|].
  intros c [H _]. exact H.
Qed.

Lemma b64_text_encode bs : utf8_encode (b64_text bs) = Ok (b64encode bs).
Proof.
  apply utf8_encode_ascii. eapply Forall_impl; [apply b64encode_chars|].
  intros c [H _]. exact H.
Qed.

Lemma b64_text_no_colon bs : Forall (fun c => c <> 58) (b64_text bs).
Proof.
  unfold b64_text. apply Forall_fmap.
  eapply Forall_impl; [apply b64encode_chars|]. intros c [_ H]. exact H.
Qed.

Lemma filter_none (P : N -> Prop) `{!forall x, Decision (P x)} (l : list N) :
  Forall (fun c => ~ P c) l -> filter P l = [].
Proof.
  induction 1 as [|c l Hc _ IH]; [reflexivity|].
  rewrite filter_cons_False by exact Hc. exact IH.
Qed.

Lemma pad_blocks plain :
  length (pad plain 16) = (16 * (length (pad plain 16) / 16))%nat.
Proof.
  destruct (pad_length plain) as [Hm _].
  pose proof (Nat.div_mod_eq (length (pad plain 16)) 16). lia.
Qed.

Lemma get_random_bytes_length entropy n pos :
  length (fst (get_random_bytes entropy n pos)) = n.
Proof. unfold get_random_bytes. cbn [fst]. by rewrite length_map, length_seq. Qed.

Lemma encrypt_data_unfold E entropy KEY data pos plain :
  length KEY = 32%nat -> utf8_encode data = Ok plain ->
  encrypt_data E entropy KEY data pos
  = (Ok (envelope_of (random_iv entropy pos)
           (cbc_encrypt_blocks E (length (pad plain 16) / 16) KEY
              (random_iv entropy pos) (pad plain 16))),
     (pos + 16)%nat).
Proof.
  intros HK Hp. unfold encrypt_data, AES_new. rewrite HK.
  cbn [valid_key_length Nat.eqb orb]. unfold get_random_bytes, AES_block_size.
  rewrite Hp. unfold mbind, outcome_bind, cbc_encrypt.
  destruct (pad_length plain) as [-> _]. cbn [Nat.eqb cipher_key cipher_iv].
  rewrite !b64_text_decode. reflexivity.
Qed.

(** C2: for every encodable plaintext and every 32-byte key the envelope
    that [encrypt_data] returns is the base64 text of the 16 bytes just
    drawn from the entropy stream, one colon, and the base64 text of the
    CBC ciphertext of the padded UTF-8 plaintext; the colon occurs exactly
    once, so that splitting at it gives back the two fields. *)
Theorem encrypt_data_envelope_format
    (E : bytes -> bytes -> bytes) (entropy : nat -> byte)
    (KEY : bytes) (data : str) (pos : nat) :
  length KEY = 32%nat ->
  encodable data = true ->
  exists plain,
    utf8_encode data = Ok plain /\
    let iv := random_iv entropy pos in
    let ct := cbc_encrypt_blocks E (length (pad plain 16) / 16) KEY iv
                (pad plain 16) in
    let envelope := b64_text iv ++ lit ":" ++ b64_text ct in
    iv = map entropy (seq pos 16) /\
    length iv = 16%nat /\
    encrypt_data E entropy KEY data pos = (Ok envelope, (pos + 16)%nat) /\
    length (filter (fun c => c = 58) envelope) = 1%nat /\
    split_on 58 envelope = [b64_text iv; b64_text ct] /\
    Forall (fun c => c <> 58) (b64_text iv) /\
    Forall (fun c => c <> 58) (b64_text ct).
Proof.
  intros HK Hd. destruct (utf8_encode_encodable data Hd) as [plain Hp].
  exists plain. split; [exact Hp|]. cbv zeta.
  change (lit ":") with [58].
  split; [reflexivity|]. split; [apply get_random_bytes_length|].
  split; [apply (encrypt_data_unfold E entropy KEY data pos plain HK Hp)|].
  split; [|split; [|split; apply b64_text_no_colon]].
  - rewrite filter_app. cbn [app]. rewrite filter_cons_True by reflexivity.
    rewrite !filter_none; [reflexivity| |].
    + eapply Forall_impl; [apply b64_text_no_colon|]. auto.
    + eapply Forall_impl; [apply b64_text_no_colon|]. auto.
  - cbn [app]. rewrite split_on_app by apply b64_text_no_colon.
    rewrite split_on_none by apply b64_text_no_colon. reflexivity.
Qed.

(** C1: for every encodable plaintext and every 32-byte key, decrypting
    the envelope that [encrypt_data] produces gives back the plaintext. *)
Theorem decrypt_data_encrypt_data
    (E D : bytes -> bytes -> bytes) (entropy : nat -> byte)
    (KEY : bytes) (data : str) (pos : nat) :
  (forall k b, length k = 32%nat -> length b = 16%nat ->
               length (E k b) = 16%nat /\ D k (E k b) = b) ->
  length KEY = 32%nat ->
  encodable data = true ->
  exists envelope,
    encrypt_data E entropy KEY data pos = (Ok envelope, (pos + 16)%nat)
    /\ decrypt_data D KEY envelope = Ok data.
Proof.
  intros Hperm HK Hd. destruct (utf8_encode_encodable data Hd) as [plain Hp].
  eexists. split; [apply (encrypt_data_unfold E entropy KEY data pos plain HK Hp)|].
  assert (Hb : forall b, length b = 16%nat ->
                         length (E KEY b) = 16%nat /\ D KEY (E KEY b) = b).
  { intros b. apply Hperm, HK. }
  set (iv := random_iv entropy pos).
  assert (Hiv : length iv = 16%nat) by apply get_random_bytes_length.
  set (n := (length (pad plain 16) / 16)%nat).
  assert (Hn : length (pad plain 16) = (16 * n)%nat) by apply pad_blocks.
  pose proof (cbc_encrypt_blocks_length E D KEY Hb n iv (pad plain 16) Hiv Hn)
    as Hct.
  unfold decrypt_data, envelope_of.
  rewrite split_on_app by apply b64_text_no_colon.
  rewrite split_on_none by apply b64_text_no_colon.
  rewrite !b64_text_encode. unfold mbind, outcome_bind.
  rewrite !b64decode_encode.
  unfold cbc_decrypt. rewrite HK, Hiv, Hct.
  replace ((16 * n) mod 16)%nat with 0%nat
    by (symmetry; rewrite Nat.mul_comm; apply Nat.Div0.mod_mul).
  replace (16 * n / 16)%nat with n
    by (symmetry; rewrite Nat.mul_comm; apply Nat.div_mul; lia).
  cbn [valid_key_length Nat.eqb orb andb].
  rewrite (cbc_decrypt_encrypt_blocks E D KEY Hb n iv (pad plain 16) Hiv Hn).
  unfold AES_block_size. rewrite unpad_pad.
  apply utf8_decode_encode, Hp.
Qed.

Lemma xor_block_permutation k b :
  length k = 32%nat -> length b = 16%nat ->
  length (xor_block k b) = 16%nat /\ xor_block k (xor_block k b) = b.
Proof.
  intros Hk Hb. unfold xor_block.
  assert (Ht : length (take 16 k) = 16%nat) by (rewrite length_take; lia).
  split.
  - rewrite strxor_length. lia.
  - apply strxor_cancel. congruence.
Qed.

Lemma encrypt_data_envelope_format_witness :
  exists plain,
    utf8_encode (lit "hi") = Ok plain /\
    let iv := random_iv sample_entropy 0 in
    let ct := cbc_encrypt_blocks xor_block (length (pad plain 16) / 16)
                sample_key iv (pad plain 16) in
    let envelope := b64_text iv ++ lit ":" ++ b64_text ct in
    iv = map sample_entropy (seq 0 16) /\
    length iv = 16%nat /\
    encrypt_data xor_block sample_entropy sample_key (lit "hi") 0
    = (Ok envelope, (0 + 16)%nat) /\
    length (filter (fun c => c = 58) envelope) = 1%nat /\
    split_on 58 envelope = [b64_text iv; b64_text ct] /\
    Forall (fun c => c <> 58) (b64_text iv) /\
    Forall (fun c => c <> 58) (b64_text ct).
Proof.
  apply (encrypt_data_envelope_format xor_block sample_entropy sample_key
           (lit "hi") 0); reflexivity.
Defined.

Lemma decrypt_data_encrypt_data_witness :
  exists envelope,
    encrypt_data xor_block sample_entropy sample_key (lit "hi") 0
    = (Ok envelope, (0 + 16)%nat)
    /\ decrypt_data xor_block sample_key envelope = Ok (lit "hi").
Proof.
  apply (decrypt_data_encrypt_data xor_block xor_block sample_entropy
           sample_key (lit "hi") 0).
  - exact xor_block_permutation.
  - reflexivity.
  - reflexivity.
Defined.

(** ** Regular expressions *)

Lemma rmatch_Eol start s : rmatch Eol start s (fun _ _ => true) = at_eol s.
Proof. destruct s as [|c [|? ?]]; try reflexivity. simpl. by destruct (c =? 10). Qed.

(** A greedy repetition of a character class, with enough fuel, accepts
    exactly the splits of the subject into at least [lo] class characters
    and a rest that the continuation accepts. *)
Lemma rep_match_class p (k : bool -> str -> bool) :
  (forall st st' r, k st r = k st' r) ->
  forall n lo start s,
    (length s <= n)%nat ->
    rep_match (rmatch (Cls p)) lo n start s k = true <->
    exists d r, s = d ++ r /\ Forall (fun c => p c = true) d
                /\ (lo <= length d)%nat /\ k false r = true.
Proof.
  intros Hk. induction n as [|n IH]; intros lo start s Hlen.
  - destruct s; [|simpl in Hlen; lia]. cbn [rep_match]. split.
    + destruct lo; [|discriminate]. intros H. exists [], [].
      split; [reflexivity|]. split; [constructor|]. split; [simpl; lia|].
      by rewrite (Hk false start).
    + intros (d & r & Hs & Hd & Hlo & Hr). symmetry in Hs.
      apply app_eq_nil in Hs as [-> ->]. destruct lo; [|simpl in Hlo; lia].
      by rewrite (Hk start false).
  - cbn [rep_match rmatch]. rewrite orb_true_iff. split.
    + intros [H|H].
      * destruct s as [|c s]; [discriminate|]. destruct (p c) eqn:Hc; [|discriminate].
        apply IH in H; [|simpl in Hlen; lia].
        destruct H as (d & r & -> & Hd & Hlo & Hr).
        exists (c :: d), r. repeat split; auto. simpl. lia.
      * destruct lo; [|discriminate]. exists [], s.
        split; [reflexivity|]. split; [constructor|]. split; [simpl; lia|].
        by rewrite (Hk false start).
    + intros (d & r & -> & Hd & Hlo & Hr). destruct d as [|c d].
      * right. destruct lo; [|simpl in Hlo; lia]. by rewrite (Hk start false).
      * left. cbn [app]. apply Forall_cons in Hd as [Hc Hd]. rewrite Hc.
        apply IH; [simpl in Hlen; lia|]. exists d, r. repeat split; auto.
        simpl in Hlo. lia.
Qed.

(** [^\d+$]: one or more decimal digits, then the end of the subject or a
    single final newline. *)
Lemma re_match_id_pattern nd s :
  re_match (id_pattern nd) s = true <->
  exists d, d <> [] /\ Forall (fun c => class_d nd c = true) d
            /\ (s = d \/ s = d ++ [10]).
Proof.
  unfold re_match, id_pattern. cbn [rmatch].
  rewrite (rep_match_class (class_d nd)
             (fun st s' => rmatch Eol st s' (fun _ _ => true))).
  - split.
    + intros (d & r & -> & Hd & Hlo & Hr). rewrite rmatch_Eol in Hr.
      exists d. split; [destruct d; [simpl in Hlo; lia | discriminate]|].
      split; [exact Hd|].
      destruct r as [|c [|? ?]]; try discriminate.
      * left. by rewrite app_nil_r.
      * right. simpl in Hr. apply N.eqb_eq in Hr. by subst.
    + intros (d & Hne & Hd & [->| ->]).
      * exists d, []. rewrite app_nil_r. repeat split; auto.
        destruct d; [done | simpl; lia].
      * exists d, [10]. repeat split; auto. destruct d; [done | simpl; lia].
  - intros st st' r. by rewrite !rmatch_Eol.
  - lia.
Qed.

Ltac color_cases :=
  repeat first
    [ reflexivity
    | rewrite rmatch_Eol
    | progress cbn [andb orb at_eol]
    | rewrite orb_false_r
    | match goal with
      | |- context [class_hex ?h] => destruct (class_hex h)
      | |- context [?c =? 35] => destruct (c =? 35)
      | |- context [?c =? 10] => destruct (c =? 10)
      end ].

Lemma validate_color_shape s : validate_color s = color_shape s.
Proof.
  unfold validate_color, re_match, color_pattern, class_char, color_shape.
  destruct s as [|c0 [|h1 [|h2 [|h3 r]]]];
    cbn -[class_hex N.eqb at_eol]; [color_cases ..|].
  destruct r as [|h4 [|h5 [|h6 r']]];
    cbn -[class_hex N.eqb at_eol]; color_cases.
  all: try (destruct r' as [|c [|? ?]]; cbn [at_eol]; try destruct (c =? 10); reflexivity).
Qed.

(** What [validate_color] accepts: [#] and three or six hexadecimal
    digits, optionally followed by one newline. *)
Lemma validate_color_iff s :
  validate_color s = true <->
  exists h, Forall (fun c => class_hex c = true) h
            /\ (length h = 3%nat \/ length h = 6%nat)
            /\ (s = 35 :: h \/ s = 35 :: h ++ [10]).
Proof.
  rewrite validate_color_shape. split.
  - destruct s as [|c0 [|h1 [|h2 [|h3 r]]]]; try discriminate.
    cbn [color_shape]. rewrite !andb_true_iff, orb_true_iff.
    intros [[[[H0 H1] H2] H3] Hr]. apply N.eqb_eq in H0 as ->.
    destruct Hr as [Hr|Hr].
    + exists [h1; h2; h3]. split; [repeat constructor; assumption|].
      split; [by left|].
      destruct r as [|c [|? ?]]; try discriminate; [by left|].
      right. simpl in Hr. apply N.eqb_eq in Hr as ->. reflexivity.
    + destruct r as [|h4 [|h5 [|h6 r']]]; try discriminate.
      rewrite !andb_true_iff in Hr. destruct Hr as [[[H4 H5] H6] Hr].
      exists [h1; h2; h3; h4; h5; h6]. split; [repeat constructor; assumption|].
      split; [by right|].
      destruct r' as [|c [|? ?]]; try discriminate; [by left|].
      right. simpl in Hr. apply N.eqb_eq in Hr as ->. reflexivity.
  - intros (h & Hh & Hlen & Hs).
    destruct Hlen as [Hlen|Hlen].
    + destruct h as [|h1 [|h2 [|h3 [|? ?]]]]; try discriminate.
      apply Forall_cons in Hh as [H1 Hh]. apply Forall_cons in Hh as [H2 Hh].
      apply Forall_cons in Hh as [H3 _].
      destruct Hs as [-> | ->]; cbn [app color_shape at_eol];
        rewrite H1, H2, H3; reflexivity.
    + destruct h as [|h1 [|h2 [|h3 [|h4 [|h5 [|h6 [|? ?]]]]]]]; try discriminate.
      apply Forall_cons in Hh as [H1 Hh]. apply Forall_cons in Hh as [H2 Hh].
      apply Forall_cons in Hh as [H3 Hh]. apply Forall_cons in Hh as [H4 Hh].
      apply Forall_cons in Hh as [H5 Hh]. apply Forall_cons in Hh as [H6 _].
      destruct Hs as [-> | ->]; cbn [app color_shape at_eol];
        rewrite H1, H2, H3, H4, H5, H6; reflexivity.
Qed.

(** Every [#RGB] and [#RRGGBB] colour is accepted. *)
Lemma validate_color_accepts h :
  Forall (fun c => class_hex c = true) h ->
  length h = 3%nat \/ length h = 6%nat ->
  validate_color (35 :: h) = true.
Proof. intros Hh Hl. apply validate_color_iff. exists h. auto. Qed.

(** On a text without newline the accepted colours are exactly [#RGB]
    and [#RRGGBB]. *)
Lemma validate_color_no_newline s :
  ~ In 10 s ->
  validate_color s = true <->
  exists h, Forall (fun c => class_hex c = true) h
            /\ (length h = 3%nat \/ length h = 6%nat) /\ s = 35 :: h.
Proof.
  intros Hn. rewrite validate_color_iff. split.
  - intros (h & Hh & Hl & [Hs|Hs]); [eauto|].
    exfalso. apply Hn. subst s. right. apply in_or_app. right. by left.
  - intros (h & Hh & Hl & Hs). eauto.
Qed.

(** C9 (code defect): a colour with a newline after the digits passes
    [validate_color], although it contains a character outside the
    hexadecimal alphabet; [$] also matches just before a final newline. *)
Theorem validate_color_trailing_newline :
  validate_color (lit "#FFF" ++ newline) = true
  /\ validate_color (lit "#000000" ++ newline) = true
  /\ class_hex 10 = false
  /\ validate_color (lit "#FFF") = true
  /\ validate_color (lit "#FFF" ++ lit " ") = false.
Proof. repeat split; reflexivity. Qed.

(** C3 (code defect): an employee id with a newline after the digits
    passes [validate_inputs], whatever the table of non-ASCII digits,
    although the newline is white space and not a digit; the same id
    followed by a blank is refused. *)
Theorem validate_inputs_trailing_newline (nd_table : N -> bool) :
  validate_inputs nd_table
    (mk_form (lit "Ali") (lit "12345" ++ newline) (lit "IT") []) = (true, [])
  /\ class_d nd_table 10 = false
  /\ is_whitespace 10 = true
  /\ validate_inputs nd_table
       (mk_form (lit "Ali") (lit "12345" ++ lit " ") (lit "IT") [])
     = (false, msg_invalid_id).
Proof. repeat split; reflexivity. Qed.

(** ** Serialisation of the employee record *)

Lemma split_on_not_nil sep s : split_on sep s <> [].
Proof.
  destruct s as [|c s]; [discriminate|]. simpl.
  destruct (c =? sep); [discriminate|]. destruct (split_on sep s); discriminate.
Qed.

Lemma split_on_prefix sep p s :
  Forall (fun c => c <> sep) p ->
  split_on sep (p ++ s)
  = match split_on sep s with
    | l :: ls => (p ++ l) :: ls
    | [] => [p]
    end.
Proof.
  pose proof (split_on_not_nil sep s) as Hnn.
  induction 1 as [|c p Hc _ IH]; cbn [app].
  - by destruct (split_on sep s).
  - cbn [split_on]. destruct (N.eqb_spec c sep); [contradiction|].
    rewrite IH. by destruct (split_on sep s).
Qed.

Lemma join_with_cons sep (l : str) ls :
  ls <> [] -> join_with sep (l :: ls) = l ++ sep ++ join_with sep ls.
Proof. destruct ls; [done | reflexivity]. Qed.

Lemma join_split_on sep s : join_with [sep] (split_on sep s) = s.
Proof.
  induction s as [|c s IH]; [reflexivity|].
  cbn [split_on]. destruct (N.eqb_spec c sep) as [->|Hne].
  - rewrite join_with_cons by apply split_on_not_nil. by rewrite IH.
  - pose proof (split_on_not_nil sep s) as Hnn.
    destruct (split_on sep s) as [|l ls]; [done|].
    destruct ls as [|l' ls].
    + simpl in *. by rewrite IH.
    + rewrite (join_with_cons _ (c :: l)) by discriminate.
      rewrite (join_with_cons _ l) in IH by discriminate.
      cbn [app]. by rewrite <- IH.
Qed.

Lemma strip_prefix_app p s : strip_prefix p (p ++ s) = Some s.
Proof. induction p as [|c p IH]; [reflexivity|]. simpl. by rewrite N.eqb_refl. Qed.

Lemma not_In_Forall_ne (x : N) l : ~ In x l -> Forall (fun c => c <> x) l.
Proof.
  intros H. apply Forall_forall. intros c Hc ->. apply H.
  by apply list_elem_of_In.
Qed.

Lemma labels_no_newline :
  Forall (fun c => c <> 10) label_name /\ Forall (fun c => c <> 10) label_id
  /\ Forall (fun c => c <> 10) label_department
  /\ Forall (fun c => c <> 10) label_notes.
Proof. repeat split; vm_compute; repeat constructor; congruence. Qed.

Section Serialize.
Variable f : form.
Hypothesis name_one_line : ~ In 10 (employee_name f).
Hypothesis id_one_line : ~ In 10 (employee_id f).
Hypothesis department_one_line : ~ In 10 (department f).

Lemma lines_no_newline :
  Forall (fun c => c <> 10) (label_name ++ employee_name f)
  /\ Forall (fun c => c <> 10) (label_id ++ employee_id f)
  /\ Forall (fun c => c <> 10) (label_department ++ department f).
Proof using name_one_line id_one_line department_one_line.
  destruct labels_no_newline as (H1 & H2 & H3 & _).
  repeat split; apply Forall_app; split; auto using not_In_Forall_ne.
Qed.

Lemma collect_employee_data_split :
  split_on 10 (collect_employee_data f)
  = (label_name ++ employee_name f) :: (label_id ++ employee_id f)
      :: (label_department ++ department f)
      :: (if truthy (additional_info f)
          then split_on 10 (label_notes ++ additional_info f)
          else []).
Proof using name_one_line id_one_line department_one_line.
  destruct lines_no_newline as (H1 & H2 & H3).
  unfold collect_employee_data, newline.
  destruct (truthy (additional_info f)).
  - rewrite <- !app_assoc. cbn [app].
    rewrite (app_assoc label_name), split_on_app by exact H1.
    rewrite (app_assoc label_id), split_on_app by exact H2.
    rewrite (app_assoc label_department), split_on_app by exact H3.
    reflexivity.
  - cbn [app].
    rewrite (app_assoc label_name), split_on_app by exact H1.
    rewrite (app_assoc label_id), split_on_app by exact H2.
    rewrite split_on_none by exact H3. reflexivity.
Qed.

Lemma parse_collect_employee_data :
  parse_employee_data (collect_employee_data f) = Some f.
Proof using name_one_line id_one_line department_one_line.
  unfold parse_employee_data. rewrite collect_employee_data_split.
  rewrite !strip_prefix_app.
  destruct f as [n i d notes]. cbn [additional_info employee_name employee_id department].
  destruct notes as [|c notes]; [reflexivity|]. cbn [truthy].
  destruct labels_no_newline as (_ & _ & _ & H4).
  rewrite split_on_prefix by exact H4.
  pose proof (join_split_on 10 (c :: notes)) as Hj.
  pose proof (split_on_not_nil 10 (c :: notes)) as Hnn.
  destruct (split_on 10 (c :: notes)) as [|l ls]; [done|].
  rewrite strip_prefix_app. unfold newline. by rewrite Hj.
Qed.
End Serialize.

Lemma is_prefix_app p s : is_prefix p (p ++ s) = true.
Proof. induction p as [|c p IH]; [reflexivity|]. simpl. by rewrite N.eqb_refl. Qed.

(** C4 (amended): when name, id and department hold no newline, the
    serialisation is the name line, the id line and the department line in
    that order, followed by the notes (behind their label) exactly when the
    notes are not empty; with empty notes it has exactly three lines; and
    reading the labelled lines back gives the original record. *)
Theorem collect_employee_data_one_line_fields (f : form) :
  ~ In 10 (employee_name f) ->
  ~ In 10 (employee_id f) ->
  ~ In 10 (department f) ->
  split_on 10 (collect_employee_data f)
  = (label_name ++ employee_name f) :: (label_id ++ employee_id f)
      :: (label_department ++ department f)
      :: (if truthy (additional_info f)
          then split_on 10 (label_notes ++ additional_info f)
          else [])
  /\ (additional_info f = [] ->
      length (split_on 10 (collect_employee_data f)) = 3%nat)
  /\ (additional_info f <> [] ->
      exists l4 more,
        split_on 10 (collect_employee_data f)
        = [label_name ++ employee_name f; label_id ++ employee_id f;
           label_department ++ department f] ++ l4 :: more
        /\ is_prefix label_notes l4 = true
        /\ join_with newline (l4 :: more) = label_notes ++ additional_info f)
  /\ parse_employee_data (collect_employee_data f) = Some f.
Proof.
  intros Hn Hi Hd.
  pose proof (collect_employee_data_split f Hn Hi Hd) as Hs.
  split; [exact Hs|]. split; [|split].
  - intros Hno. rewrite Hs, Hno. reflexivity.
  - intros Hno. rewrite Hs.
    destruct (additional_info f) as [|c notes] eqn:En; [done|]. cbn [truthy].
    destruct labels_no_newline as (_ & _ & _ & H4).
    pose proof (join_split_on 10 (label_notes ++ c :: notes)) as Hj.
    rewrite split_on_prefix in * by exact H4.
    destruct (split_on 10 (c :: notes)) as [|l ls].
    + exists label_notes, []. split; [reflexivity|]. split; [|exact Hj].
      rewrite <- (app_nil_r label_notes) at 2. apply is_prefix_app.
    + exists (label_notes ++ l), ls. split; [reflexivity|].
      split; [apply is_prefix_app | exact Hj].
  - apply parse_collect_employee_data; assumption.
Qed.

Lemma collect_employee_data_one_line_fields_witness :
  split_on 10 (collect_employee_data scenario_form)
  = (label_name ++ employee_name scenario_form)
      :: (label_id ++ employee_id scenario_form)
      :: (label_department ++ department scenario_form)
      :: (if truthy (additional_info scenario_form)
          then split_on 10 (label_notes ++ additional_info scenario_form)
          else [])
  /\ (additional_info scenario_form = [] ->
      length (split_on 10 (collect_employee_data scenario_form)) = 3%nat)
  /\ (additional_info scenario_form <> [] ->
      exists l4 more,
        split_on 10 (collect_employee_data scenario_form)
        = [label_name ++ employee_name scenario_form;
           label_id ++ employee_id scenario_form;
           label_department ++ department scenario_form] ++ l4 :: more
        /\ is_prefix label_notes l4 = true
        /\ join_with newline (l4 :: more)
           = label_notes ++ additional_info scenario_form)
  /\ parse_employee_data (collect_employee_data scenario_form)
     = Some scenario_form.
Proof.
  apply (collect_employee_data_one_line_fields scenario_form);
    vm_compute; intuition discriminate.
Defined.

(** C4 as stated fails: a record that passes validation, with empty
    notes, whose department holds a newline serialises to four lines, the
    same text as another record, and reads back as that other record. *)
Lemma collect_employee_data_newline_in_field :
  validate_inputs ascii_digits_only two_line_department_form = (true, [])
  /\ additional_info two_line_department_form = []
  /\ length (split_on 10 (collect_employee_data two_line_department_form))
     = 4%nat
  /\ collect_employee_data two_line_department_form
     = collect_employee_data notes_form
  /\ parse_employee_data (collect_employee_data two_line_department_form)
     = Some notes_form
  /\ two_line_department_form <> notes_form.
Proof. repeat split; try reflexivity. discriminate. Qed.

(** ** Input validation *)

Lemma re_match_id_pattern_nil nd : re_match (id_pattern nd) [] = false.
Proof. reflexivity. Qed.

(** The three rules of [validate_inputs], in order. *)
Lemma validate_inputs_rules nd f :
  validate_inputs nd f
  = if (length (strip (employee_name f)) <? 2)%nat
    then (false, msg_invalid_name)
    else if negb (re_match (id_pattern nd) (employee_id f))
    then (false, msg_invalid_id)
    else if (length (strip (department f)) <? 2)%nat
    then (false, msg_invalid_department)
    else (true, []).
Proof.
  unfold validate_inputs. destruct f as [n i d notes].
  cbn [employee_name employee_id department].
  destruct n as [|cn n]; [reflexivity|]. cbn [truthy negb orb].
  destruct (length (strip (cn :: n)) <? 2)%nat; [reflexivity|].
  destruct i as [|ci i]; [reflexivity|]. cbn [truthy negb orb].
  destruct (negb (re_match (id_pattern nd) (ci :: i))); [reflexivity|].
  destruct d as [|cd d]; reflexivity.
Qed.

(** The id rule on an id without newline: digits only. *)
Lemma id_rule_no_newline nd i :
  ~ In 10 i ->
  re_match (id_pattern nd) i = true <->
  i <> [] /\ Forall (fun c => class_d nd c = true) i.
Proof.
  intros Hn. rewrite re_match_id_pattern. split.
  - intros (d & Hne & Hd & [->| ->]); [auto|].
    exfalso. apply Hn, in_or_app. right. by left.
  - intros [Hne Hd]. exists i. auto.
Qed.

(** When validation fails, [generate_qr_code] shows the message and does
    nothing else: no stage is entered, no entropy is drawn, the image is
    not replaced. *)
Lemma generate_qr_code_invalid
    (image : Type) make_image save_png path_exists makedirs path_join
    write_file b64dec E entropy nd (a : application) :
  fst (validate_inputs nd (fields a)) = false ->
  generate_qr_code image make_image save_png path_exists makedirs path_join
    write_file b64dec E entropy nd a
  = log (ShowError (snd (validate_inputs nd (fields a)))) a.
Proof.
  unfold generate_qr_code. destruct (validate_inputs nd (fields a)) as [v m].
  cbn [fst snd]. intros ->. reflexivity.
Qed.

(** ** KeyStore *)

(** A readable key file is taken verbatim, whatever its length. *)
Lemma load_or_generate_key_readable entropy c w pos :
  load_or_generate_key entropy (mk_key_file (Some c) None w) pos
  = mk_key_store (Some c) (Some c) pos [EvOpenRead].
Proof. reflexivity. Qed.

(** C5 (amended): when the key file is missing or cannot be read, the
    call ends with a 32-byte key in memory.  If the file is missing, 32
    bytes are drawn and written; when the write succeeds they are the key
    and the contents of the file; when it fails, a second draw of 32
    bytes is the key.  If the file exists and reading fails, the first
    draw is the key and nothing is written. *)
Theorem load_or_generate_key_missing_or_unreadable
    (entropy : nat -> byte) (kf : key_file) (pos : nat) :
  kf_contents kf = None \/ is_Some (kf_read_error kf) ->
  exists k,
    KEY (load_or_generate_key entropy kf pos) = Some k
    /\ length k = 32%nat
    /\ match kf_contents kf, kf_read_error kf, kf_write kf with
       | None, _, WriteOk =>
           k = map entropy (seq pos 32)
           /\ ks_file (load_or_generate_key entropy kf pos) = Some k
           /\ ks_log (load_or_generate_key entropy kf pos)
              = [EvOpenWrite; EvWrite k]
           /\ ks_pos (load_or_generate_key entropy kf pos) = (pos + 32)%nat
       | None, _, OpenFails e =>
           k = map entropy (seq (pos + 32) 32)
           /\ ks_file (load_or_generate_key entropy kf pos) = None
           /\ ks_log (load_or_generate_key entropy kf pos)
              = [EvOpenWrite; EvPrint e]
           /\ ks_pos (load_or_generate_key entropy kf pos)
              = (pos + 32 + 32)%nat
       | None, _, WriteFails n e =>
           k = map entropy (seq (pos + 32) 32)
           /\ ks_file (load_or_generate_key entropy kf pos)
              = Some (take n (map entropy (seq pos 32)))
           /\ ks_log (load_or_generate_key entropy kf pos)
              = [EvOpenWrite; EvWrite (map entropy (seq pos 32)); EvPrint e]
           /\ ks_pos (load_or_generate_key entropy kf pos)
              = (pos + 32 + 32)%nat
       | Some c, Some e, _ =>
           k = map entropy (seq pos 32)
           /\ ks_file (load_or_generate_key entropy kf pos) = Some c
           /\ ks_log (load_or_generate_key entropy kf pos)
              = [EvOpenRead; EvPrint e]
           /\ ks_pos (load_or_generate_key entropy kf pos) = (pos + 32)%nat
       | Some c, None, _ => False
       end.
Proof.
  intros H. destruct kf as [[c|] [e|] w]; cbn [kf_contents kf_read_error kf_write] in *.
  - eexists. split; [reflexivity|]. split; [by rewrite length_map, length_seq|].
    repeat split.
  - destruct H as [H|[? H]]; discriminate.
  - destruct w; eexists; (split; [reflexivity|]);
      (split; [by rewrite length_map, length_seq|]); repeat split.
  - destruct w; eexists; (split; [reflexivity|]);
      (split; [by rewrite length_map, length_seq|]); repeat split.
Qed.

Lemma load_or_generate_key_missing_or_unreadable_witness :
  exists k,
    KEY (load_or_generate_key sample_entropy full_disk_key_file 0) = Some k
    /\ length k = 32%nat
    /\ k = map sample_entropy (seq (0 + 32) 32)
    /\ ks_file (load_or_generate_key sample_entropy full_disk_key_file 0)
       = Some (take 0 (map sample_entropy (seq 0 32)))
    /\ ks_log (load_or_generate_key sample_entropy full_disk_key_file 0)
       = [EvOpenWrite; EvWrite (map sample_entropy (seq 0 32)); EvPrint OSError]
    /\ ks_pos (load_or_generate_key sample_entropy full_disk_key_file 0)
       = (0 + 32 + 32)%nat.
Proof.
  apply (load_or_generate_key_missing_or_unreadable sample_entropy
           full_disk_key_file 0).
  left. reflexivity.
Defined.

(** C5 as stated fails: with an unreadable key file nothing is written;
    with a failing write the key in memory is a second draw, not the bytes
    handed to the file. *)
Lemma load_or_generate_key_not_first_draw :
  ~ persists_and_uses_first_draw sample_entropy unreadable_key_file 0
  /\ ~ persists_and_uses_first_draw sample_entropy unwritable_key_file 0
  /\ ~ persists_and_uses_first_draw sample_entropy full_disk_key_file 0.
Proof.
  unfold persists_and_uses_first_draw. repeat split.
  - vm_compute. intros [[H|[H|[]]] _]; discriminate.
  - vm_compute. intros [[H|[H|[]]] _]; discriminate.
  - vm_compute. intros [_ H]. discriminate.
Qed.

(** C6 (code defect): the key file is read whole and its contents become
    the key without any check of the length.  A 16-byte file gives a
    16-byte key, which [AES.new] accepts (AES-128); the empty file that a
    failed write leaves behind gives an empty key on the next start, and
    then every encryption raises. *)
Theorem load_or_generate_key_short_file :
  KEY (load_or_generate_key sample_entropy short_key_file 0)
  = Some (take 16 sample_key)
  /\ length (take 16 sample_key) = 16%nat
  /\ is_ok (fst (encrypt_data xor_block sample_entropy (take 16 sample_key)
                   (lit "hi") 0)) = true
  /\ ks_file (load_or_generate_key sample_entropy full_disk_key_file 0)
     = Some []
  /\ KEY (load_or_generate_key sample_entropy
            (mk_key_file (Some []) None WriteOk) 64) = Some []
  /\ fst (encrypt_data xor_block sample_entropy [] (lit "hi") 64)
     = Raise ValueError.
Proof. repeat split; reflexivity. Qed.

(** ** SettingsStore *)

Lemma dict_update_lookup (d other : gmap string json) (k : string) :
  dict_update d other !! k
  = match other !! k with
    | Some v => Some v
    | None => d !! k
    end.
Proof.
  unfold dict_update. rewrite lookup_union.
  destruct (other !! k), (d !! k); reflexivity.
Qed.

Lemma utf8_decode_raises (bs : bytes) (e : exn) :
  utf8_decode bs = Raise e -> e = UnicodeDecodeError.
Proof.
  remember (length bs) as n eqn:Hn. revert bs Hn.
  induction n as [n IH] using lt_wf_ind. intros bs Hn.
  assert (Hc : forall c r, (length r < n)%nat ->
             cons_cp c (utf8_decode r) = Raise e -> e = UnicodeDecodeError).
  { intros c r Hr. unfold cons_cp.
    destruct (utf8_decode r) eqn:Hd; [discriminate|].
    intros [= <-]. exact (IH _ Hr r eq_refl e0 Hd) || idtac.
    all: try (apply (IH _ Hr r eq_refl); exact Hd). }
  destruct bs as [|b0 r0]; [discriminate|]. cbn [utf8_decode].
  cbn [length] in Hn.
  repeat match goal with
  | |- context [if ?c then _ else _] => destruct c
  | |- context [match ?r with [] => _ | _ :: _ => _ end] =>
      destruct r; cbn [length] in Hn
  | |- Raise _ = Raise _ -> _ => intros [= <-]; reflexivity
  | |- cons_cp _ (utf8_decode _) = Raise _ -> _ => apply Hc; lia
  end.
Qed.

Lemma json_load_truncated_cases (text : bytes) (d : gmap string json)
    (n : nat) :
  json_load_truncated text d n
  = if decide (length text <= n)%nat then Ok (LDict d)
    else match utf8_decode (take n text) with
         | Ok _ => Raise JSONDecodeError
         | Raise _ => Raise UnicodeDecodeError
         end.
Proof.
  unfold json_load_truncated. destruct (decide _); [reflexivity|].
  unfold mbind, outcome_bind.
  destruct (utf8_decode (take n text)) as [s|e] eqn:Hd; [reflexivity|].
  by rewrite (utf8_decode_raises _ _ Hd).
Qed.

(** C7 (amended): [save_settings_changes] checks the path and the two
    colours before it changes anything.  If a check fails, the only
    effect is the error message of the first failing check: settings in
    memory, settings file and console are as before.  If all checks
    pass, the settings in memory are updated first and stay updated
    whatever the write does; the file holds the new settings when the
    write succeeds and is untouched when it cannot be opened.  A write
    that fails after [n] bytes leaves those bytes: the file then holds
    the new settings if that was all of the text, cannot be decoded if
    the text was cut inside a character, and cannot be parsed
    otherwise. *)
Theorem save_settings_changes_validate_then_write
    (json_dump : gmap string json -> bytes)
    (fs : filesystem) (w : write_behaviour) (f : settings_form)
    (st : settings_state) :
  if settings_form_valid fs f
  then
    app_settings (save_settings_changes json_dump fs w f st)
    = dict_update (app_settings st) (settings_of_form f)
    /\ settings_file (save_settings_changes json_dump fs w f st)
       = match w with
         | WriteOk =>
             Some (Ok (LDict (dict_update (app_settings st)
                                (settings_of_form f))))
         | OpenFails _ => settings_file st
         | WriteFails n _ =>
             let new := dict_update (app_settings st) (settings_of_form f) in
             if decide (length (json_dump new) <= n)%nat
             then Some (Ok (LDict new))
             else match utf8_decode (take n (json_dump new)) with
                  | Ok _ => Some (Raise JSONDecodeError)
                  | Raise _ => Some (Raise UnicodeDecodeError)
                  end
         end
    /\ forall k v, settings_of_form f !! k = Some v ->
                   app_settings (save_settings_changes json_dump fs w f st) !! k
                   = Some v
  else
    save_settings_changes json_dump fs w f st
    = mk_settings_state (app_settings st) (settings_file st)
        (messages st ++ [ErrorMessage (first_violation fs f)]) (printed st).
Proof.
  unfold settings_form_valid, save_settings_changes, first_violation.
  destruct (validate_path fs (JStr (save_path_field f))); [|reflexivity].
  destruct (validate_color (qr_color_picker f)); [|reflexivity].
  destruct (validate_color (qr_bg_color_picker f)); [|reflexivity].
  cbn [andb negb].
  split; [destruct w; reflexivity|]. split.
  - destruct w; try reflexivity.
    cbn [save_settings show_message settings_file app_settings].
    rewrite json_load_truncated_cases. cbv zeta.
    destruct (decide _); [reflexivity|].
    destruct (utf8_decode _); reflexivity.
  - intros k v Hk.
    destruct w; cbn; rewrite dict_update_lookup, Hk; reflexivity.
Qed.

(** C7 as stated fails: when the write cannot be done, the settings in
    memory have already changed, the success message is shown and no
    error message; a write that fails after ten bytes leaves a settings
    file that can no longer be parsed. *)
Lemma save_settings_changes_write_failure :
  settings_form_valid permissive_fs red_form = true
  /\ app_settings (save_settings_changes sample_json_dump permissive_fs
                     (OpenFails PermissionError) red_form
                     initial_settings_state) !! "qr_color"
     = Some (JStr (lit "#FF0000"))
  /\ app_settings initial_settings_state !! "qr_color"
     = Some (JStr (lit "#000000"))
  /\ messages (save_settings_changes sample_json_dump permissive_fs
                 (OpenFails PermissionError) red_form initial_settings_state)
     = [SuccessMessage msg_settings_saved]
  /\ printed (save_settings_changes sample_json_dump permissive_fs
                (OpenFails PermissionError) red_form initial_settings_state)
     = [PermissionError]
  /\ settings_file (save_settings_changes sample_json_dump permissive_fs
                      (WriteFails 10 OSError) red_form initial_settings_state)
     = Some (Raise JSONDecodeError).
Proof. repeat split; vm_compute; reflexivity. Qed.

(** C8 (amended): a settings file that holds a JSON object is applied as
    a whole or not at all.  When it has a [save_path] that passes
    [validate_path], every key of the file overrides the default, keys
    missing from the file keep their default and keys the application
    does not know are carried along; when [save_path] is missing or fails
    the check, the whole file is dropped and all settings keep their
    defaults. *)
Theorem load_settings_all_or_nothing
    (fs : filesystem) (d defaults : gmap string json) :
  load_settings fs (Some (Ok (LDict d))) defaults
  = Ok (match d !! "save_path" with
        | Some p => if validate_path fs p then dict_update defaults d
                    else defaults
        | None => defaults
        end, [])
  /\ forall k : string,
       dict_update defaults d !! k
       = match d !! k with
         | Some v => Some v
         | None => defaults !! k
         end.
Proof.
  split; [|intros k; apply dict_update_lookup].
  unfold load_settings. destruct (d !! "save_path") as [p|]; [|reflexivity].
  destruct (validate_path fs p); reflexivity.
Qed.

(** C8 as stated fails: with a relative [save_path] the other value of
    the file, [auto_save], is not applied either. *)
Lemma load_settings_relative_path :
  relative_path_file !! "auto_save" = Some (JBool true)
  /\ validate_path permissive_fs (JStr (lit "relative/dir")) = false
  /\ load_settings permissive_fs (Some (Ok (LDict relative_path_file)))
       default_settings
     = Ok (default_settings, [])
  /\ default_settings !! "auto_save" = Some (JBool false).
Proof. repeat split; reflexivity. Qed.

(** Without a settings file, or with one that cannot be opened or parsed,
    the defaults stay. *)
Lemma load_settings_fallback (fs : filesystem) (defaults : gmap string json)
    (e : exn) :
  load_settings fs None defaults = Ok (defaults, [])
  /\ (caught_by_load_settings e = true ->
      load_settings fs (Some (Raise e)) defaults = Ok (defaults, [e]))
  /\ (caught_by_load_settings e = false ->
      load_settings fs (Some (Raise e)) defaults = Raise e).
Proof.
  split; [reflexivity|]. unfold load_settings.
  split; intros ->; reflexivity.
Qed.

(** ** QRImageEncoder *)

(** C10 (amended): [create_qr_code_image] does not check the colours
    itself.  The two colour values of the settings go to the imaging
    library as they are; the call fails with the library's exception when
    the library refuses them, and otherwise returns the base64 text of
    the rendered image (unless the quality lookup or the rendering
    fails). *)
Theorem create_qr_code_image_delegates_colors
    (image : Type) (make_image : str -> json -> json -> outcome image)
    (save_png : image -> Z -> outcome bytes)
    (settings : gmap string json) (data : str) (size : Z) (fg bg : json) :
  settings !! "qr_color" = Some fg ->
  settings !! "qr_bg_color" = Some bg ->
  create_qr_code_image image make_image save_png settings data size
  = match make_image data fg bg with
    | Raise e => Raise e
    | Ok img =>
        match get_image_quality settings with
        | Raise e => Raise e
        | Ok quality =>
            match save_png img quality with
            | Raise e => Raise e
            | Ok png => Ok (b64_text png)
            end
        end
    end.
Proof.
  intros Hfg Hbg. unfold create_qr_code_image. rewrite Hfg, Hbg.
  unfold default. cbn [from_option id]. unfold mbind, outcome_bind.
  destruct (make_image data fg bg) as [img|e]; [|reflexivity].
  destruct (get_image_quality settings) as [q|e]; [|reflexivity].
  destruct (save_png img q) as [png|e]; [|reflexivity].
  apply b64_text_decode.
Qed.

Lemma create_qr_code_image_delegates_colors_witness :
  create_qr_code_image _ sample_make_image sample_save_png
    named_color_settings (lit "x") 300
  = match sample_make_image (lit "x") (JStr (lit "red")) (JStr (lit "#FFFFFF")) with
    | Raise e => Raise e
    | Ok img =>
        match get_image_quality named_color_settings with
        | Raise e => Raise e
        | Ok quality =>
            match sample_save_png img quality with
            | Raise e => Raise e
            | Ok png => Ok (b64_text png)
            end
        end
    end.
Proof.
  apply (create_qr_code_image_delegates_colors _ sample_make_image
           sample_save_png named_color_settings (lit "x") 300
           (JStr (lit "red")) (JStr (lit "#FFFFFF"))); reflexivity.
Defined.

(** C10 as stated fails: a colour name from a loaded settings file does
    not match the hexadecimal pattern, is not checked by
    [create_qr_code_image], and is rendered by an imaging back end that
    knows colour names. *)
Lemma create_qr_code_image_named_color :
  validate_color (lit "red") = false
  /\ load_settings permissive_fs (Some (Ok (LDict named_color_file)))
       default_settings
     = Ok (named_color_settings, [])
  /\ named_color_settings !! "qr_color" = Some (JStr (lit "red"))
  /\ create_qr_code_image _ sample_make_image sample_save_png
       named_color_settings (lit "x") 300
     = Ok (b64_text (list_byte_of_string "PNG")).
Proof. repeat split; reflexivity. Qed.

(** * Further properties *)

(** ** Encryption: failures, size and shape of the envelope *)

Lemma utf8_encode_cp_ok_scalar c :
  is_ok (utf8_encode_cp c) = is_scalar c.
Proof.
  unfold utf8_encode_cp, is_scalar, is_surrogate.
  destruct (N.ltb_spec c 0x80), (N.ltb_spec c 0x800), (N.ltb_spec c 0x10000),
    (N.ltb_spec c 0x110000), (N.leb_spec 0xD800 c), (N.leb_spec c 0xDFFF);
    try reflexivity; lia.
Qed.

Lemma utf8_encode_cp_error c e :
  utf8_encode_cp c = Raise e -> e = UnicodeEncodeError.
Proof.
  unfold utf8_encode_cp.
  repeat match goal with |- context [if ?b then _ else _] => destruct b end;
    congruence.
Qed.

Lemma utf8_encode_ok_encodable s : is_ok (utf8_encode s) = encodable s.
Proof.
  unfold encodable. induction s as [|c s IH]; [reflexivity|].
  cbn [utf8_encode forallb]. rewrite <- utf8_encode_cp_ok_scalar, <- IH.
  destruct (utf8_encode_cp c); [|reflexivity].
  destruct (utf8_encode s); reflexivity.
Qed.

Lemma utf8_encode_error s e : utf8_encode s = Raise e -> e = UnicodeEncodeError.
Proof.
  revert e. induction s as [|c s IH]; intros e; [discriminate|].
  cbn [utf8_encode]. destruct (utf8_encode_cp c) eqn:Ec.
  - destruct (utf8_encode s); [discriminate|]. intros [= <-]. by apply IH.
  - intros [= <-]. by apply utf8_encode_cp_error in Ec.
Qed.

Lemma encrypt_data_valid_key E entropy KEY data pos plain :
  valid_key_length (length KEY) = true -> utf8_encode data = Ok plain ->
  encrypt_data E entropy KEY data pos
  = (Ok (envelope_of (random_iv entropy pos)
           (cbc_encrypt_blocks E (length (pad plain 16) / 16) KEY
              (random_iv entropy pos) (pad plain 16))),
     (pos + 16)%nat).
Proof.
  intros HK Hp. unfold encrypt_data, AES_new. rewrite HK.
  unfold get_random_bytes, AES_block_size.
  rewrite Hp. unfold mbind, outcome_bind, cbc_encrypt.
  destruct (pad_length plain) as [-> _]. cbn [Nat.eqb cipher_key cipher_iv].
  rewrite !b64_text_decode. reflexivity.
Qed.

Lemma encrypt_data_cases
    (E : bytes -> bytes -> bytes) (entropy : nat -> byte)
    (KEY : bytes) (data : str) (pos : nat) :
  match encrypt_data E entropy KEY data pos with
  | (Ok _, pos') =>
      valid_key_length (length KEY) = true /\ encodable data = true
      /\ pos' = (pos + 16)%nat
  | (Raise e, pos') =>
      (e = ValueError /\ valid_key_length (length KEY) = false /\ pos' = pos)
      \/ (e = UnicodeEncodeError /\ valid_key_length (length KEY) = true
          /\ encodable data = false /\ pos' = (pos + 16)%nat)
  end.
Proof.
  destruct (valid_key_length (length KEY)) eqn:HK.
  - pose proof (utf8_encode_ok_encodable data) as Hok.
    destruct (utf8_encode data) as [plain|e] eqn:Hp.
    + rewrite (encrypt_data_valid_key E entropy KEY data pos plain HK Hp).
      cbn [is_ok] in Hok. auto.
    + unfold encrypt_data, AES_new. rewrite HK. cbn [get_random_bytes].
      rewrite Hp. cbn. right. apply utf8_encode_error in Hp. auto.
  - unfold encrypt_data, AES_new. rewrite HK. left. auto.
Qed.

(** [encrypt_data] fails in exactly two ways: with [ValueError], before
    any random byte is drawn, when the key is not 16, 24 or 32 bytes long;
    with [UnicodeEncodeError], after the IV has been drawn, when the key
    is fine and the text holds a lone surrogate.  Otherwise it returns an
    envelope and has drawn 16 bytes. *)
Theorem encrypt_data_outcomes
    (E : bytes -> bytes -> bytes) (entropy : nat -> byte)
    (KEY : bytes) (data : str) (pos : nat) :
  match encrypt_data E entropy KEY data pos with
  | (Ok _, pos') =>
      valid_key_length (length KEY) = true /\ encodable data = true
      /\ pos' = (pos + 16)%nat
  | (Raise e, pos') =>
      (e = ValueError /\ valid_key_length (length KEY) = false /\ pos' = pos)
      \/ (e = UnicodeEncodeError /\ valid_key_length (length KEY) = true
          /\ encodable data = false /\ pos' = (pos + 16)%nat)
  end.
Proof. exact (encrypt_data_cases E entropy KEY data pos). Qed.

Lemma b64encode_length bs : length (b64encode bs) = (4 * ((length bs + 2) / 3))%nat.
Proof.
  remember (length bs) as n eqn:Hn. revert bs Hn.
  induction n as [n IH] using lt_wf_ind. intros bs Hn.
  destruct bs as [|a [|b [|c rest]]]; subst n; try reflexivity.
  cbn [b64encode length]. rewrite (IH (length rest)) by (simpl; lia || reflexivity).
  replace (S (S (S (length rest))) + 2)%nat with (length rest + 2 + 1 * 3)%nat by lia.
  rewrite Nat.div_add by lia. lia.
Qed.

(** The length of the envelope depends only on the number of UTF-8 bytes
    of the plaintext: 24 characters for the IV, one colon, and the base64
    text of the padded plaintext length. *)
Theorem encrypt_data_envelope_length
    (E : bytes -> bytes -> bytes) (entropy : nat -> byte)
    (KEY : bytes) (data : str) (pos : nat) (plain : bytes) (envelope : str) :
  (forall b, length b = 16%nat -> length (E KEY b) = 16%nat) ->
  utf8_encode data = Ok plain ->
  fst (encrypt_data E entropy KEY data pos) = Ok envelope ->
  length envelope
  = (25 + 4 * ((16 * (length plain / 16 + 1) + 2) / 3))%nat.
Proof.
  intros HE Hp Henc.
  pose proof (encrypt_data_cases E entropy KEY data pos) as Ho.
  destruct (encrypt_data E entropy KEY data pos) as [[env|e] pos'] eqn:Eq;
    cbn [fst] in Henc; [|discriminate].
  destruct Ho as (HK & _ & _). injection Henc as ->.
  rewrite (encrypt_data_valid_key E entropy KEY data pos plain HK Hp) in Eq.
  injection Eq as <- _.
  unfold envelope_of, b64_text.
  rewrite length_app. cbn [length]. rewrite !length_map, !b64encode_length.
  assert (Hiv : length (random_iv entropy pos) = 16%nat)
    by apply get_random_bytes_length.
  rewrite Hiv.
  assert (Hct : forall n prev d, length prev = 16%nat -> length d = (16 * n)%nat ->
            length (cbc_encrypt_blocks E n KEY prev d) = (16 * n)%nat).
  { induction n as [|n IH]; intros prev d Hprev Hd; [reflexivity|].
    cbn [cbc_encrypt_blocks].
    assert (Hx : length (strxor (take 16 d) prev) = 16%nat).
    { rewrite strxor_length, length_take. lia. }
    rewrite length_app, (HE _ Hx), IH; [lia | apply HE, Hx |].
    rewrite length_drop. lia. }
  rewrite Hct; [|exact Hiv|apply pad_blocks].
  assert (Hpad : (length (pad plain 16) / 16 = length plain / 16 + 1)%nat).
  { unfold pad. rewrite length_app, length_replicate.
    pose proof (Nat.mod_upper_bound (length plain) 16 ltac:(lia)).
    pose proof (Nat.div_mod_eq (length plain) 16).
    replace (length plain + (16 - length plain mod 16))%nat
      with ((length plain / 16 + 1) * 16)%nat by lia.
    apply Nat.div_mul. lia. }
  change (Nat.divmod (length (pad plain 16)) 15 0 15).1
    with (length (pad plain 16) / 16)%nat.
  rewrite Hpad. change ((16 + 2) / 3)%nat with 6%nat. lia.
Qed.

Lemma encrypt_data_envelope_length_witness :
  length (b64_text (random_iv sample_entropy 0) ++ lit ":"
          ++ b64_text (cbc_encrypt_blocks xor_block 1 sample_key
                         (random_iv sample_entropy 0)
                         (pad (list_byte_of_string "hi") 16)))
  = (25 + 4 * ((16 * (length (list_byte_of_string "hi") / 16 + 1) + 2) / 3))%nat.
Proof.
  apply (encrypt_data_envelope_length xor_block sample_entropy sample_key
           (lit "hi") 0 (list_byte_of_string "hi")).
  - intros b Hb. apply xor_block_permutation; [reflexivity | exact Hb].
  - reflexivity.
  - reflexivity.
Defined.

Lemma b64_text_inj a b : b64_text a = b64_text b -> a = b.
Proof.
  unfold b64_text. intros H.
  assert (He : b64encode a = b64encode b).
  { revert H. generalize (b64encode a) (b64encode b). intros l.
    induction l as [|x l IH]; intros [|y l'] H; try discriminate; [reflexivity|].
    injection H as Hxy Hl. apply to_N_inj in Hxy. subst. f_equal. by apply IH. }
  pose proof (b64decode_encode a) as Ha. rewrite He, b64decode_encode in Ha.
  congruence.
Qed.

Lemma envelope_of_inj iv ct iv' ct' :
  envelope_of iv ct = envelope_of iv' ct' -> iv = iv' /\ ct = ct'.
Proof.
  intros H. apply (f_equal (split_on 58)) in H. unfold envelope_of in H.
  rewrite !split_on_app, !split_on_none in H by apply b64_text_no_colon.
  injection H as H1 H2. split; by apply b64_text_inj.
Qed.

(** Two encryptions whose IVs differ give different envelopes, also for
    the same text under the same key. *)
Theorem encrypt_data_distinct_iv
    (E : bytes -> bytes -> bytes) (entropy : nat -> byte)
    (KEY : bytes) (data data' : str) (pos pos' : nat) (env env' : str) :
  random_iv entropy pos <> random_iv entropy pos' ->
  fst (encrypt_data E entropy KEY data pos) = Ok env ->
  fst (encrypt_data E entropy KEY data' pos') = Ok env' ->
  env <> env'.
Proof.
  intros Hiv H1 H2 Heq. apply Hiv.
  pose proof (encrypt_data_cases E entropy KEY data pos) as Ho.
  pose proof (encrypt_data_cases E entropy KEY data' pos') as Ho'.
  destruct (encrypt_data E entropy KEY data pos) as [[e1|?] p1] eqn:Eq1;
    cbn [fst] in H1; [|discriminate].
  destruct (encrypt_data E entropy KEY data' pos') as [[e2|?] p2] eqn:Eq2;
    cbn [fst] in H2; [|discriminate].
  destruct Ho as (HK & Hd & _). destruct Ho' as (_ & Hd' & _).
  destruct (utf8_encode_encodable data Hd) as [plain Hp].
  destruct (utf8_encode_encodable data' Hd') as [plain' Hp'].
  rewrite (encrypt_data_valid_key E entropy KEY data pos plain HK Hp) in Eq1.
  rewrite (encrypt_data_valid_key E entropy KEY data' pos' plain' HK Hp') in Eq2.
  injection Eq1 as <- _. injection Eq2 as <- _.
  injection H1 as <-. injection H2 as <-.
  by apply envelope_of_inj in Heq as [? _].
Qed.

Lemma encrypt_data_distinct_iv_witness :
  b64_text (random_iv sample_entropy 0) ++ lit ":"
    ++ b64_text (cbc_encrypt_blocks xor_block 1 sample_key
                   (random_iv sample_entropy 0)
                   (pad (list_byte_of_string "hi") 16))
  <> b64_text (random_iv sample_entropy 16) ++ lit ":"
    ++ b64_text (cbc_encrypt_blocks xor_block 1 sample_key
                   (random_iv sample_entropy 16)
                   (pad (list_byte_of_string "hi") 16)).
Proof.
  apply (encrypt_data_distinct_iv xor_block sample_entropy sample_key
           (lit "hi") (lit "hi") 0 16).
  - vm_compute. discriminate.
  - reflexivity.
  - reflexivity.
Defined.

Lemma utf8_encode_ascii_text (l : str) :
  Forall (fun c => c < 128) l -> utf8_encode l = Ok (map byte_of_N l).
Proof.
  induction 1 as [|c l Hc _ IH]; [reflexivity|].
  cbn [utf8_encode map]. unfold utf8_encode_cp.
  destruct (N.ltb_spec c 128); [|lia]. rewrite IH. reflexivity.
Qed.

(** Every character of an envelope is ASCII: a letter, a digit, [+], [/],
    [=] or the colon, so the envelope is its own UTF-8 encoding. *)
Theorem encrypt_data_envelope_ascii
    (E : bytes -> bytes -> bytes) (entropy : nat -> byte)
    (KEY : bytes) (data : str) (pos : nat) (envelope : str) :
  fst (encrypt_data E entropy KEY data pos) = Ok envelope ->
  Forall (fun c => c < 128) envelope
  /\ utf8_encode envelope = Ok (map byte_of_N envelope).
Proof.
  intros Henc.
  pose proof (encrypt_data_cases E entropy KEY data pos) as Ho.
  destruct (encrypt_data E entropy KEY data pos) as [[env|?] p] eqn:Eq;
    cbn [fst] in Henc; [|discriminate].
  destruct Ho as (HK & Hd & _). injection Henc as ->.
  destruct (utf8_encode_encodable data Hd) as [plain Hp].
  rewrite (encrypt_data_valid_key E entropy KEY data pos plain HK Hp) in Eq.
  injection Eq as <- _.
  assert (Ha : Forall (fun c => c < 128)
                 (envelope_of (random_iv entropy pos)
                    (cbc_encrypt_blocks E (length (pad plain 16) / 16) KEY
                       (random_iv entropy pos) (pad plain 16)))).
  { unfold envelope_of, b64_text. apply Forall_app. split; [|constructor; [lia|]];
      apply Forall_fmap; (eapply Forall_impl; [apply b64encode_chars|]);
      intros c [H _]; exact H. }
  split; [exact Ha | apply utf8_encode_ascii_text, Ha].
Qed.

Lemma encrypt_data_envelope_ascii_witness :
  Forall (fun c => c < 128)
    (b64_text (random_iv sample_entropy 0) ++ lit ":"
     ++ b64_text (cbc_encrypt_blocks xor_block 1 sample_key
                    (random_iv sample_entropy 0)
                    (pad (list_byte_of_string "hi") 16)))
  /\ utf8_encode
       (b64_text (random_iv sample_entropy 0) ++ lit ":"
        ++ b64_text (cbc_encrypt_blocks xor_block 1 sample_key
                       (random_iv sample_entropy 0)
                       (pad (list_byte_of_string "hi") 16)))
     = Ok (map byte_of_N
             (b64_text (random_iv sample_entropy 0) ++ lit ":"
              ++ b64_text (cbc_encrypt_blocks xor_block 1 sample_key
                             (random_iv sample_entropy 0)
                             (pad (list_byte_of_string "hi") 16)))).
Proof.
  apply (encrypt_data_envelope_ascii xor_block sample_entropy sample_key
           (lit "hi") 0).
  reflexivity.
Defined.

(** ** Validation of the form *)

(** The inputs are accepted exactly when at least two characters of the
    name remain after stripping, the id is a non-empty run of decimal
    digits (optionally followed by one newline), and at least two
    characters of the department remain after stripping. *)
Theorem validate_inputs_accepts_iff (nd_table : N -> bool) (f : form) :
  validate_inputs nd_table f = (true, []) <->
  (2 <= length (strip (employee_name f)))%nat
  /\ (exists d, d <> [] /\ Forall (fun c => class_d nd_table c = true) d
                /\ (employee_id f = d \/ employee_id f = d ++ [10]))
  /\ (2 <= length (strip (department f)))%nat.
Proof.
  rewrite validate_inputs_rules, <- re_match_id_pattern.
  destruct (Nat.ltb_spec (length (strip (employee_name f))) 2);
    [split; [discriminate | lia]|].
  destruct (re_match (id_pattern nd_table) (employee_id f));
    cbn [negb]; [|split; [discriminate | intros (_ & ? & _); discriminate]].
  destruct (Nat.ltb_spec (length (strip (department f))) 2);
    [split; [discriminate | lia]|].
  split; auto.
Qed.

Lemma validation_messages_distinct :
  msg_invalid_name <> [] /\ msg_invalid_id <> []
  /\ msg_invalid_department <> []
  /\ msg_invalid_name <> msg_invalid_id
  /\ msg_invalid_name <> msg_invalid_department
  /\ msg_invalid_id <> msg_invalid_department.
Proof. repeat split; vm_compute; discriminate. Qed.

(** The message names the first rule that fails: the name rule before the
    id rule before the department rule; a later rule is not looked at
    when an earlier one fails, and the message is empty exactly when all
    rules pass. *)
Theorem validate_inputs_first_failure (nd_table : N -> bool) (f : form) :
  (snd (validate_inputs nd_table f) = msg_invalid_name
   <-> (length (strip (employee_name f)) < 2)%nat)
  /\ (snd (validate_inputs nd_table f) = msg_invalid_id
      <-> (2 <= length (strip (employee_name f)))%nat
          /\ re_match (id_pattern nd_table) (employee_id f) = false)
  /\ (snd (validate_inputs nd_table f) = msg_invalid_department
      <-> (2 <= length (strip (employee_name f)))%nat
          /\ re_match (id_pattern nd_table) (employee_id f) = true
          /\ (length (strip (department f)) < 2)%nat)
  /\ (snd (validate_inputs nd_table f) = []
      <-> fst (validate_inputs nd_table f) = true).
Proof.
  destruct validation_messages_distinct as (N1 & N2 & N3 & N12 & N13 & N23).
  rewrite validate_inputs_rules.
  destruct (Nat.ltb_spec (length (strip (employee_name f))) 2); cbn [fst snd].
  { repeat split; try done; try lia; intros; try (exfalso; lia);
      try (destruct_and?; lia); congruence. }
  destruct (re_match (id_pattern nd_table) (employee_id f)); cbn [negb fst snd].
  2:{ repeat split; try done; try lia; intros; destruct_and?;
        try congruence; try lia. }
  destruct (Nat.ltb_spec (length (strip (department f))) 2); cbn [fst snd].
  { repeat split; try done; try lia; intros; destruct_and?;
      try congruence; try lia. }
  repeat split; try done; intros; destruct_and?; try congruence; try lia.
Qed.

Lemma lstrip_whitespace s :
  Forall (fun c => is_whitespace c = true) s -> lstrip s = [].
Proof. induction 1 as [|c s Hc _ IH]; [reflexivity|]. simpl. by rewrite Hc. Qed.

Lemma lstrip_length s : (length (lstrip s) <= length s)%nat.
Proof.
  induction s as [|c s IH]; [reflexivity|]. simpl.
  destruct (is_whitespace c); simpl; lia.
Qed.

Lemma strip_length s : (length (strip s) <= length s)%nat.
Proof.
  unfold strip, rstrip. rewrite length_rev.
  etrans; [apply lstrip_length|]. rewrite length_rev. apply lstrip_length.
Qed.

(** A name or a department of white space only, or shorter than two
    characters, is refused, whatever the other fields hold. *)
Theorem validate_inputs_blank (nd_table : N -> bool) (f : form) :
  (Forall (fun c => is_whitespace c = true) (employee_name f)
   \/ (length (employee_name f) < 2)%nat ->
   validate_inputs nd_table f = (false, msg_invalid_name))
  /\ (Forall (fun c => is_whitespace c = true) (department f)
      \/ (length (department f) < 2)%nat ->
      fst (validate_inputs nd_table f) = false).
Proof.
  rewrite validate_inputs_rules. split.
  - intros H.
    assert (Hs : (length (strip (employee_name f)) < 2)%nat).
    { destruct H as [H|H].
      - unfold strip. rewrite (lstrip_whitespace _ H). simpl. lia.
      - pose proof (strip_length (employee_name f)). lia. }
    apply Nat.ltb_lt in Hs. by rewrite Hs.
  - intros H.
    assert (Hs : (length (strip (department f)) < 2)%nat).
    { destruct H as [H|H].
      - unfold strip. rewrite (lstrip_whitespace _ H). simpl. lia.
      - pose proof (strip_length (department f)). lia. }
    apply Nat.ltb_lt in Hs. rewrite Hs.
    destruct (length (strip (employee_name f)) <? 2)%nat; [reflexivity|].
    destruct (negb (re_match (id_pattern nd_table) (employee_id f))); reflexivity.
Qed.

(** ** Serialisation: injectivity and encodability *)

(** Two records whose name, id and department hold no newline and that
    serialise to the same text are the same record. *)
Theorem collect_employee_data_injective (f g : form) :
  ~ In 10 (employee_name f) -> ~ In 10 (employee_id f) ->
  ~ In 10 (department f) ->
  ~ In 10 (employee_name g) -> ~ In 10 (employee_id g) ->
  ~ In 10 (department g) ->
  collect_employee_data f = collect_employee_data g -> f = g.
Proof.
  intros F1 F2 F3 G1 G2 G3 H.
  pose proof (parse_collect_employee_data f F1 F2 F3) as Pf.
  pose proof (parse_collect_employee_data g G1 G2 G3) as Pg.
  rewrite H in Pf. congruence.
Qed.

Lemma collect_employee_data_injective_witness :
  scenario_form = scenario_form.
Proof.
  apply (collect_employee_data_injective scenario_form scenario_form);
    try reflexivity; vm_compute; intuition discriminate.
Defined.

Lemma encodable_app a b : encodable (a ++ b) = encodable a && encodable b.
Proof. unfold encodable. apply forallb_app. Qed.

(** The serialised record can be encoded as UTF-8, and so encrypted,
    exactly when each of the four fields can. *)
Theorem collect_employee_data_encodable (f : form) :
  encodable (collect_employee_data f)
  = encodable (employee_name f) && encodable (employee_id f)
    && encodable (department f) && encodable (additional_info f).
Proof.
  unfold collect_employee_data.
  destruct (additional_info f) as [|c notes]; cbn [truthy];
    rewrite !encodable_app;
    change (encodable label_name) with true;
    change (encodable label_id) with true;
    change (encodable label_department) with true;
    change (encodable label_notes) with true;
    change (encodable newline) with true;
    change (encodable []) with true;
    cbn [andb]; rewrite ?andb_true_r; rewrite ?andb_assoc; reflexivity.
Qed.

(** ** KeyStore: persistence *)

(** An existing key file is never written to: its contents afterwards
    are its contents before and no write is attempted, whether or not it
    can be read. *)
Theorem load_or_generate_key_keeps_existing_file
    (entropy : nat -> byte) (kf : key_file) (pos : nat) (c : bytes) :
  kf_contents kf = Some c ->
  ks_file (load_or_generate_key entropy kf pos) = Some c
  /\ existsb is_write_event (ks_log (load_or_generate_key entropy kf pos))
     = false.
Proof.
  destruct kf as [[c'|] [e|] w]; cbn [kf_contents]; intros [= <-];
    repeat split.
Qed.

Lemma load_or_generate_key_keeps_existing_file_witness :
  ks_file (load_or_generate_key sample_entropy unreadable_key_file 0)
  = Some sample_key
  /\ existsb is_write_event
       (ks_log (load_or_generate_key sample_entropy unreadable_key_file 0))
     = false.
Proof.
  apply (load_or_generate_key_keeps_existing_file sample_entropy
           unreadable_key_file 0 sample_key).
  reflexivity.
Defined.

(** The key persists: after a start that met no input or output error
    (the file was read, or it was missing and could be written), the next
    start, with whatever entropy and write behaviour, finds the same key
    in the file, draws no random byte and leaves the file as it is. *)
Theorem load_or_generate_key_next_start
    (entropy entropy' : nat -> byte) (kf : key_file) (pos pos' : nat)
    (w' : write_behaviour) :
  kf_read_error kf = None ->
  (kf_contents kf = None -> kf_write kf = WriteOk) ->
  KEY (load_or_generate_key entropy'
         (mk_key_file (ks_file (load_or_generate_key entropy kf pos)) None w')
         pos')
  = KEY (load_or_generate_key entropy kf pos)
  /\ ks_pos (load_or_generate_key entropy'
               (mk_key_file (ks_file (load_or_generate_key entropy kf pos))
                  None w') pos')
     = pos'
  /\ ks_file (load_or_generate_key entropy'
                (mk_key_file (ks_file (load_or_generate_key entropy kf pos))
                   None w') pos')
     = ks_file (load_or_generate_key entropy kf pos).
Proof.
  destruct kf as [[c|] [e|] w]; cbn [kf_read_error kf_contents kf_write];
    intros He Hw; try discriminate.
  - repeat split.
  - rewrite (Hw eq_refl). repeat split.
Qed.

Lemma load_or_generate_key_next_start_witness :
  KEY (load_or_generate_key sample_entropy
         (mk_key_file
            (ks_file (load_or_generate_key sample_entropy
                        (mk_key_file None None WriteOk) 0))
            None (OpenFails PermissionError)) 32)
  = KEY (load_or_generate_key sample_entropy (mk_key_file None None WriteOk) 0)
  /\ ks_pos (load_or_generate_key sample_entropy
               (mk_key_file
                  (ks_file (load_or_generate_key sample_entropy
                              (mk_key_file None None WriteOk) 0))
                  None (OpenFails PermissionError)) 32)
     = 32%nat
  /\ ks_file (load_or_generate_key sample_entropy
                (mk_key_file
                   (ks_file (load_or_generate_key sample_entropy
                               (mk_key_file None None WriteOk) 0))
                   None (OpenFails PermissionError)) 32)
     = ks_file (load_or_generate_key sample_entropy
                  (mk_key_file None None WriteOk) 0).
Proof.
  apply (load_or_generate_key_next_start sample_entropy sample_entropy
           (mk_key_file None None WriteOk) 0 32 (OpenFails PermissionError)).
  - reflexivity.
  - reflexivity.
Defined.

(** A write that fails after the file was opened leaves the first [n]
    bytes of the key that was drawn first; the next start takes that
    remainder as its key, so with [n < 32] it runs with a key shorter
    than 32 bytes, and the key of the first run (a second draw) was never
    stored. *)
Theorem load_or_generate_key_after_failed_write
    (entropy entropy' : nat -> byte) (pos pos' : nat) (n : nat) (e : exn)
    (w' : write_behaviour) :
  KEY (load_or_generate_key entropy'
         (mk_key_file
            (ks_file (load_or_generate_key entropy
                        (mk_key_file None None (WriteFails n e)) pos))
            None w') pos')
  = Some (take n (map entropy (seq pos 32)))
  /\ length (take n (map entropy (seq pos 32))) = Nat.min n 32
  /\ KEY (load_or_generate_key entropy
            (mk_key_file None None (WriteFails n e)) pos)
     = Some (map entropy (seq (pos + 32) 32)).
Proof.
  repeat split. by rewrite length_take, length_map, length_seq.
Qed.

(** ** SettingsStore: start-up, round trips and reset *)

(** [load_settings] lets an exception escape in exactly these cases:
    opening or parsing raised something other than [FileNotFoundError],
    [JSONDecodeError] or [PermissionError]; or the file holds a JSON
    number, boolean or null; or a JSON string that contains
    ["save_path"]; or a JSON array with the element ["save_path"] (the
    last three raise [TypeError]). *)
Theorem load_settings_raises_iff
    (fs : filesystem) (file : option (outcome loaded))
    (defaults : gmap string json) (e : exn) :
  load_settings fs file defaults = Raise e <->
  (file = Some (Raise e) /\ caught_by_load_settings e = false)
  \/ (e = TypeError
      /\ ((exists v, file = Some (Ok (LScalar v)))
          \/ (exists s, file = Some (Ok (LStr s))
                        /\ contains (lit "save_path") s = true)
          \/ (exists l, file = Some (Ok (LList l))
                        /\ existsb (is_json_str (lit "save_path")) l = true))).
Proof.
  unfold load_settings. split.
  - destruct file as [[[d|s|l|v]|e']|].
    + destruct (d !! "save_path") as [p|]; [destruct (validate_path fs p)|];
        discriminate.
    + destruct (contains (lit "save_path") s) eqn:Hc; [|discriminate].
      cbn. intros [= <-]. right. split; [reflexivity|]. right. left. eauto.
    + destruct (existsb (is_json_str (lit "save_path")) l) eqn:Hc; [|discriminate].
      cbn. intros [= <-]. right. split; [reflexivity|]. right. right. eauto.
    + cbn. intros [= <-]. right. split; [reflexivity|]. left. eauto.
    + destruct (caught_by_load_settings e') eqn:Hc; [discriminate|].
      intros [= <-]. left. auto.
    + discriminate.
  - intros [[-> Hc]|[-> [[v ->]|[(s & -> & Hc)|(l & -> & Hc)]]]].
    + by rewrite Hc.
    + reflexivity.
    + by rewrite Hc.
    + by rewrite Hc.
Qed.

Lemma load_settings_ok_cases fs file defaults d pr :
  load_settings fs file defaults = Ok (d, pr) ->
  d = defaults \/ exists l, d = dict_update defaults l.
Proof.
  unfold load_settings.
  destruct file as [[[l|s|l|v]|e']|].
  - destruct (l !! "save_path") as [p|]; [destruct (validate_path fs p)|];
      intros [= <- _]; eauto.
  - destruct (contains (lit "save_path") s); cbn; [discriminate|].
    intros [= <- _]. auto.
  - destruct (existsb (is_json_str (lit "save_path")) l); cbn; [discriminate|].
    intros [= <- _]. auto.
  - discriminate.
  - destruct (caught_by_load_settings e'); [|discriminate]. intros [= <- _]. auto.
  - intros [= <- _]. auto.
Qed.

(** Loading never removes a key: every key of the defaults is still
    present afterwards, so the look-ups [app_settings["qr_size"]],
    [["image_quality"]], [["auto_save"]] and [["save_path"]] of the
    pipeline cannot raise [KeyError] after start-up. *)
Theorem load_settings_keeps_default_keys
    (fs : filesystem) (file : option (outcome loaded))
    (default_save_path : str) (d : gmap string json) (pr : list exn) :
  load_settings fs file (setup_app_settings default_save_path) = Ok (d, pr) ->
  Forall (fun k => is_ok (dict_index d k) = true) settings_keys.
Proof.
  intros H. apply load_settings_ok_cases in H.
  assert (Hk : Forall (fun k => is_Some (setup_app_settings default_save_path !! k))
                 settings_keys).
  { repeat constructor; eexists; reflexivity. }
  eapply Forall_impl; [exact Hk|]. intros k [v Hv]. unfold dict_index.
  destruct H as [->|[l ->]].
  - by rewrite Hv.
  - rewrite dict_update_lookup, Hv. by destruct (l !! k).
Qed.

Lemma load_settings_keeps_default_keys_witness :
  Forall (fun k => is_ok (dict_index named_color_settings k) = true)
    settings_keys.
Proof.
  apply (load_settings_keeps_default_keys permissive_fs
           (Some (Ok (LDict named_color_file))) (lit "/home/user/QR-pass")
           named_color_settings []).
  reflexivity.
Defined.

Lemma save_settings_changes_validate_then_write_aux json_dump fs w f st :
  settings_form_valid fs f = true ->
  app_settings (save_settings_changes json_dump fs w f st)
  = dict_update (app_settings st) (settings_of_form f)
  /\ settings_file (save_settings_changes json_dump fs w f st)
     = match w with
       | WriteOk =>
           Some (Ok (LDict (dict_update (app_settings st)
                              (settings_of_form f))))
       | OpenFails _ => settings_file st
       | WriteFails n _ =>
           Some (json_load_truncated
                   (json_dump (dict_update (app_settings st)
                                 (settings_of_form f)))
                   (dict_update (app_settings st) (settings_of_form f)) n)
       end.
Proof.
  unfold settings_form_valid, save_settings_changes.
  destruct (validate_path fs (JStr (save_path_field f))); [|discriminate].
  destruct (validate_color (qr_color_picker f)); [|discriminate].
  destruct (validate_color (qr_bg_color_picker f)); [|discriminate].
  intros _. destruct w; split; reflexivity.
Qed.

Lemma save_settings_changes_invalid json_dump fs w f st :
  settings_form_valid fs f = false ->
  save_settings_changes json_dump fs w f st
  = mk_settings_state (app_settings st) (settings_file st)
      (messages st ++ [ErrorMessage (first_violation fs f)]) (printed st).
Proof.
  unfold settings_form_valid, save_settings_changes, first_violation.
  destruct (validate_path fs (JStr (save_path_field f))); [|reflexivity].
  destruct (validate_color (qr_color_picker f)); [|reflexivity].
  destruct (validate_color (qr_bg_color_picker f)); [discriminate|reflexivity].
Qed.

Lemma settings_of_form_save_path f :
  settings_of_form f !! "save_path" = Some (JStr (save_path_field f)).
Proof. reflexivity. Qed.

(** Round trip: after a save that passed validation and whose write
    succeeded, loading the file again (the path still being valid) gives
    back, over any defaults, every value of the form. *)
Theorem save_settings_changes_then_load
    (json_dump : gmap string json -> bytes)
    (fs : filesystem) (f : settings_form) (st : settings_state)
    (defaults : gmap string json) :
  settings_form_valid fs f = true ->
  exists d,
    load_settings fs
      (settings_file (save_settings_changes json_dump fs WriteOk f st))
      defaults = Ok (d, [])
    /\ d !! "save_path" = Some (JStr (save_path_field f))
    /\ d !! "auto_save" = Some (JBool (auto_save_switch f))
    /\ d !! "image_quality" = Some (json_of_option (image_quality_dropdown f))
    /\ d !! "qr_size" = Some (json_of_option (qr_size_dropdown f))
    /\ d !! "qr_color" = Some (JStr (qr_color_picker f))
    /\ d !! "qr_bg_color" = Some (JStr (qr_bg_color_picker f))
    /\ d !! "language" = Some (json_of_option (language_dropdown f)).
Proof.
  intros Hv.
  pose proof (save_settings_changes_validate_then_write_aux
                json_dump fs WriteOk f st Hv) as (Hs & Hfile).
  unfold settings_form_valid in Hv.
  apply andb_true_iff in Hv as [Hv _]. apply andb_true_iff in Hv as [Hp _].
  exists (dict_update defaults (dict_update (app_settings st) (settings_of_form f))).
  rewrite Hfile. unfold load_settings.
  rewrite dict_update_lookup, settings_of_form_save_path, Hp.
  split; [reflexivity|].
  repeat split; rewrite !dict_update_lookup; reflexivity.
Qed.

Lemma save_settings_changes_then_load_witness :
  exists d,
    load_settings permissive_fs
      (settings_file (save_settings_changes sample_json_dump permissive_fs
                        WriteOk red_form initial_settings_state))
      default_settings = Ok (d, [])
    /\ d !! "save_path" = Some (JStr (save_path_field red_form))
    /\ d !! "auto_save" = Some (JBool (auto_save_switch red_form))
    /\ d !! "image_quality"
       = Some (json_of_option (image_quality_dropdown red_form))
    /\ d !! "qr_size" = Some (json_of_option (qr_size_dropdown red_form))
    /\ d !! "qr_color" = Some (JStr (qr_color_picker red_form))
    /\ d !! "qr_bg_color" = Some (JStr (qr_bg_color_picker red_form))
    /\ d !! "language" = Some (json_of_option (language_dropdown red_form)).
Proof.
  apply (save_settings_changes_then_load sample_json_dump permissive_fs
           red_form initial_settings_state default_settings).
  reflexivity.
Defined.

Lemma settings_of_form_other_key f k :
  k ∉ settings_keys -> settings_of_form f !! k = None.
Proof.
  intros Hk. unfold settings_of_form.
  repeat (rewrite lookup_insert_ne
            by (intros <-; apply Hk; unfold settings_keys; set_solver)).
  by rewrite lookup_empty.
Qed.

(** Saving touches the seven settings only: any other key of the
    dictionary in memory (for instance one that came from the settings
    file) keeps its value, whether the save passes validation or not and
    whatever the write does. *)
Theorem save_settings_changes_keeps_other_keys
    (json_dump : gmap string json -> bytes)
    (fs : filesystem) (w : write_behaviour) (f : settings_form)
    (st : settings_state) (k : string) :
  k ∉ settings_keys ->
  app_settings (save_settings_changes json_dump fs w f st) !! k
  = app_settings st !! k.
Proof.
  intros Hk. destruct (settings_form_valid fs f) eqn:Hv.
  - destruct (save_settings_changes_validate_then_write_aux
                json_dump fs w f st Hv) as [-> _].
    by rewrite dict_update_lookup, settings_of_form_other_key.
  - by rewrite save_settings_changes_invalid.
Qed.

Lemma save_settings_changes_keeps_other_keys_witness :
  app_settings
    (save_settings_changes sample_json_dump permissive_fs WriteOk red_form
       (mk_settings_state named_color_settings None [] [])) !! "theme"
  = app_settings (mk_settings_state named_color_settings None [] []) !! "theme".
Proof.
  apply (save_settings_changes_keeps_other_keys sample_json_dump
           permissive_fs WriteOk red_form
           (mk_settings_state named_color_settings None [] []) "theme").
  unfold settings_keys. rewrite !not_elem_of_cons.
  repeat split; try discriminate. apply not_elem_of_nil.
Defined.

(** A save that passed validation and whose write fails after [n] bytes
    leaves those bytes in the settings file, and the next [load_settings]
    meets one of three things.  If the text was cut inside a character,
    [UnicodeDecodeError] leaves [load_settings], which does not catch it.
    If it was cut elsewhere before its end, the file does not parse and
    the defaults are kept, [JSONDecodeError] being printed.  If all of the
    text had been written, the new settings are loaded.  A save whose
    file cannot be opened leaves the file as it was. *)
Theorem save_settings_changes_failed_write_then_load
    (json_dump : gmap string json -> bytes)
    (fs : filesystem) (f : settings_form) (st : settings_state)
    (defaults : gmap string json) (n : nat) (e : exn) :
  settings_form_valid fs f = true ->
  load_settings fs
    (settings_file (save_settings_changes json_dump fs (WriteFails n e) f st))
    defaults
  = (let new := dict_update (app_settings st) (settings_of_form f) in
     if decide (length (json_dump new) <= n)%nat
     then Ok (dict_update defaults new, [])
     else match utf8_decode (take n (json_dump new)) with
          | Ok _ => Ok (defaults, [JSONDecodeError])
          | Raise _ => Raise UnicodeDecodeError
          end)
  /\ settings_file (save_settings_changes json_dump fs (OpenFails e) f st)
     = settings_file st.
Proof.
  intros Hv.
  destruct (save_settings_changes_validate_then_write_aux
              json_dump fs (WriteFails n e) f st Hv) as [_ ->].
  destruct (save_settings_changes_validate_then_write_aux
              json_dump fs (OpenFails e) f st Hv) as [_ ->].
  split; [|reflexivity].
  rewrite json_load_truncated_cases. cbv zeta.
  unfold settings_form_valid in Hv.
  apply andb_true_iff in Hv as [Hv _]. apply andb_true_iff in Hv as [Hp _].
  destruct (decide _).
  - unfold load_settings.
    by rewrite dict_update_lookup, settings_of_form_save_path, Hp.
  - destruct (utf8_decode _); reflexivity.
Qed.

Lemma save_settings_changes_failed_write_then_load_witness :
  load_settings permissive_fs
    (settings_file (save_settings_changes sample_json_dump permissive_fs
                      (WriteFails 76 OSError) red_form initial_settings_state))
    default_settings
  = Raise UnicodeDecodeError
  /\ settings_file (save_settings_changes sample_json_dump permissive_fs
                      (OpenFails OSError) red_form initial_settings_state)
     = settings_file initial_settings_state.
Proof.
  pose proof (save_settings_changes_failed_write_then_load sample_json_dump
                permissive_fs red_form initial_settings_state default_settings
                76 OSError eq_refl) as [H1 H2].
  split; [|exact H2]. rewrite H1. vm_compute. reflexivity.
Defined.

Lemma setup_app_settings_keys p k :
  is_Some (setup_app_settings p !! k) <-> k ∈ settings_keys.
Proof.
  unfold setup_app_settings, settings_keys. split.
  - intros [v Hv]. revert Hv.
    repeat (rewrite lookup_insert; case_decide; [subst; set_solver|]).
    by rewrite lookup_empty.
  - intros Hk.
    repeat (apply elem_of_cons in Hk as [->|Hk]; [eexists; reflexivity|]).
    by apply elem_of_nil in Hk.
Qed.

(** Reset: whatever the write does, the seven settings in memory take
    their hard-coded defaults and every other key keeps its value; the
    controls show the defaults; and when the write succeeds, the next
    load gives the defaults for the seven settings whether or not the
    default path passes [validate_path]. *)
Theorem reset_settings_restores_defaults
    (json_dump : gmap string json -> bytes)
    (p : str) (w : write_behaviour) (st : settings_state)
    (fs : filesystem) :
  fst (reset_settings json_dump p w st) = default_settings_form p
  /\ (forall k,
        app_settings (snd (reset_settings json_dump p w st)) !! k
        = match setup_app_settings p !! k with
          | Some v => Some v
          | None => app_settings st !! k
          end)
  /\ settings_of_form (default_settings_form p) = setup_app_settings p
  /\ exists d,
       load_settings fs
         (settings_file (snd (reset_settings json_dump p WriteOk st)))
         (setup_app_settings p) = Ok (d, [])
       /\ forall k, k ∈ settings_keys -> d !! k = setup_app_settings p !! k.
Proof.
  split; [reflexivity|]. split.
  { intros k. unfold reset_settings. cbn [snd].
    destruct w; cbn; apply dict_update_lookup. }
  split; [reflexivity|].
  unfold reset_settings, load_settings. cbn [snd save_settings settings_file
    show_message app_settings].
  rewrite dict_update_lookup.
  change (setup_app_settings p !! "save_path") with (Some (JStr p)).
  cbv beta iota.
  destruct (validate_path _ _).
  - eexists. split; [reflexivity|]. intros k Hk.
    apply setup_app_settings_keys with (p := p) in Hk as [v Hv].
    by rewrite !dict_update_lookup, Hv.
  - eexists. split; [reflexivity|]. reflexivity.
Qed.

Lemma mapping_find_key (mapping : list (str * Z)) (s : str) :
  match find (fun kv => bool_decide (fst kv = s)) mapping with
  | Some kv => fst kv = s /\ In kv mapping
  | None => ~ In s (map fst mapping)
  end.
Proof.
  induction mapping as [|kv m IH]; cbn [find map]; [intros []|].
  case_bool_decide as Hk.
  - split; [exact Hk | by left].
  - destruct (find _ m) as [kv'|].
    + destruct IH as [IH1 IH2]. split; [exact IH1 | by right].
    + intros [Hin|Hin]; [by apply Hk | by apply IH].
Qed.

Lemma mapping_key_unique (mapping : list (str * Z)) (s : str) (z z' : Z) :
  NoDup (map fst mapping) ->
  In (s, z) mapping -> In (s, z') mapping -> z = z'.
Proof.
  induction mapping as [|[k v] m IH]; cbn [map fst]; [intros _ []|].
  intros Hnd [Hz|Hz] [Hz'|Hz'].
  - congruence.
  - apply NoDup_cons in Hnd as [Hk _]. exfalso. apply Hk.
    injection Hz as -> ->. apply list_elem_of_In.
    apply (in_map fst) in Hz'. exact Hz'.
  - apply NoDup_cons in Hnd as [Hk _]. exfalso. apply Hk.
    injection Hz' as -> ->. apply list_elem_of_In.
    apply (in_map fst) in Hz. exact Hz.
  - apply NoDup_cons in Hnd as [_ Hnd]. by apply IH.
Qed.

Lemma mapping_get_ok (mapping : list (str * Z)) (v : json) (dflt z : Z) :
  NoDup (map fst mapping) ->
  mapping_get mapping v dflt = Ok z <->
  match v with JArr _ | JObj _ => False | _ => True end
  /\ ((exists l, v = JStr l /\ In (l, z) mapping)
      \/ ((forall l, v = JStr l -> ~ In l (map fst mapping)) /\ z = dflt)).
Proof.
  intros Hnd. unfold mapping_get.
  destruct v as [| | | |s| |];
    try (split;
         [intros [= <-]; split; [exact I|]; right; split;
          [intros l; discriminate | reflexivity]
         |intros [_ [(l & Hl & _)|[_ ->]]]; [discriminate|reflexivity]]);
    try (split; [discriminate | intros [[] _]]).
  pose proof (mapping_find_key mapping s) as Hf.
  destruct (find _ mapping) as [[k x]|]; cbn [fst snd] in *.
  - destruct Hf as [-> Hin]. split.
    + intros [= <-]. split; [exact I|]. left. eauto.
    + intros [_ [(l & [= <-] & Hl)|[Hno _]]].
      * f_equal. exact (mapping_key_unique _ _ _ _ Hnd Hin Hl).
      * exfalso. apply (Hno s eq_refl). apply (in_map fst) in Hin. exact Hin.
  - split.
    + intros [= <-]. split; [exact I|]. right. split; [|reflexivity].
      intros l [= <-]. exact Hf.
    + intros [_ [(l & [= <-] & Hl)|[_ ->]]]; [|reflexivity].
      exfalso. apply Hf. apply (in_map fst) in Hl. exact Hl.
Qed.

Lemma mapping_get_raises (mapping : list (str * Z)) (v : json) (dflt : Z)
    (e : exn) :
  mapping_get mapping v dflt = Raise e <->
  e = TypeError /\ match v with JArr _ | JObj _ => True | _ => False end.
Proof.
  unfold mapping_get.
  destruct v; split; try discriminate; try (by intros [_ []]).
  - intros [= <-]. auto.
  - by intros [-> _].
  - intros [= <-]. auto.
  - by intros [-> _].
Qed.

Lemma setting_mapped (settings : gmap string json) (k : string)
    (mapping : list (str * Z)) (dflt : Z) :
  NoDup (map fst mapping) ->
  (forall e,
     (v ← dict_index settings k; mapping_get mapping v dflt) = Raise e <->
     (e = KeyError /\ settings !! k = None)
     \/ (e = TypeError
         /\ exists v, settings !! k = Some v
                      /\ match v with JArr _ | JObj _ => True | _ => False end))
  /\ (forall z,
        (v ← dict_index settings k; mapping_get mapping v dflt) = Ok z <->
        exists v,
          settings !! k = Some v
          /\ match v with JArr _ | JObj _ => False | _ => True end
          /\ ((exists l, v = JStr l /\ In (l, z) mapping)
              \/ ((forall l, v = JStr l -> ~ In l (map fst mapping))
                  /\ z = dflt))).
Proof.
  intros Hnd. unfold dict_index, mbind, outcome_bind.
  destruct (settings !! k) as [v|]; split.
  - intros e. rewrite mapping_get_raises. split.
    + intros [-> Hv]. right. eauto.
    + intros [[_ [=]]|(-> & v' & [= <-] & Hv)]. auto.
  - intros z. rewrite (mapping_get_ok _ _ _ _ Hnd). split.
    + intros [Hh Hz]. eauto.
    + intros (v' & [= <-] & Hh & Hz). auto.
  - intros e. split.
    + intros [= <-]. auto.
    + intros [[-> _]|(_ & v & [=] & _)]. reflexivity.
  - intros z. split; [discriminate|]. intros (v & [=] & _).
Qed.

(** [get_qr_size] and [get_image_quality], case by case.  Each raises
    [KeyError] exactly when its key is missing and [TypeError] exactly
    when the value is an array or an object, which cannot be looked up in
    a dictionary.  Otherwise the result is the entry of the table for a
    value that is one of the four labels, and the default, 300 or 90, for
    every other value. *)
Theorem get_qr_size_and_quality_range (settings : gmap string json) :
  (forall e,
     get_qr_size settings = Raise e <->
     (e = KeyError /\ settings !! "qr_size" = None)
     \/ (e = TypeError
         /\ exists v, settings !! "qr_size" = Some v
                      /\ match v with JArr _ | JObj _ => True | _ => False end))
  /\ (forall z,
        get_qr_size settings = Ok z <->
        exists v,
          settings !! "qr_size" = Some v
          /\ match v with JArr _ | JObj _ => False | _ => True end
          /\ ((exists l, v = JStr l
                         /\ In (l, z)
                              [(lit "صغير", 200%Z); (lit "متوسط", 300%Z);
                               (lit "كبير", 400%Z); (lit "كبير جداً", 500%Z)])
              \/ ((forall l, v = JStr l ->
                             ~ In l [lit "صغير"; lit "متوسط"; lit "كبير";
                                     lit "كبير جداً"])
                  /\ z = 300%Z)))
  /\ (forall e,
        get_image_quality settings = Raise e <->
        (e = KeyError /\ settings !! "image_quality" = None)
        \/ (e = TypeError
            /\ exists v, settings !! "image_quality" = Some v
                         /\ match v with
                            | JArr _ | JObj _ => True
                            | _ => False
                            end))
  /\ (forall z,
        get_image_quality settings = Ok z <->
        exists v,
          settings !! "image_quality" = Some v
          /\ match v with JArr _ | JObj _ => False | _ => True end
          /\ ((exists l, v = JStr l
                         /\ In (l, z)
                              [(lit "عالية جداً", 100%Z); (lit "عالية", 90%Z);
                               (lit "متوسطة", 75%Z); (lit "منخفضة", 50%Z)])
              \/ ((forall l, v = JStr l ->
                             ~ In l [lit "عالية جداً"; lit "عالية";
                                     lit "متوسطة"; lit "منخفضة"])
                  /\ z = 90%Z))).
Proof.
  unfold get_qr_size, get_image_quality.
  split; [|split; [|split]].
  - apply setting_mapped. apply (bool_decide_unpack _). by vm_compute.
  - apply setting_mapped. apply (bool_decide_unpack _). by vm_compute.
  - apply setting_mapped. apply (bool_decide_unpack _). by vm_compute.
  - apply setting_mapped. apply (bool_decide_unpack _). by vm_compute.
Qed.

(** ** Saving the image and the generation pipeline *)

Section PipelineProperties.
Variable image : Type.
Variable make_image : str -> json -> json -> outcome image.
Variable save_png : image -> Z -> outcome bytes.
Variable path_exists : json -> outcome bool.
Variable makedirs : json -> outcome unit.
Variable path_join : json -> str -> outcome str.
Variable write_file : str -> bytes -> outcome unit.
Variable base64_b64decode : str -> outcome bytes.
Variable aes_encrypt_block : bytes -> bytes -> bytes.
Variable entropy : nat -> byte.
Variable nd_table : N -> bool.

Abbreviation save := (save_qr_code path_exists makedirs path_join write_file
                    base64_b64decode).
Abbreviation generate := (generate_qr_code image make_image save_png path_exists
                        makedirs path_join write_file base64_b64decode
                        aes_encrypt_block entropy nd_table).
Abbreviation try_block := (generate_try image make_image save_png path_exists
                         makedirs path_join write_file base64_b64decode
                         aes_encrypt_block entropy).

Abbreviation png_name a :=
  (lit "qr_code_" ++ employee_id (fields a) ++ lit ".png").

Lemma save_qr_code_cases (a : application) :
  fields (snd (save a)) = fields a
  /\ app_key (snd (save a)) = app_key a
  /\ cfg (snd (save a)) = cfg a
  /\ rng_pos (snd (save a)) = rng_pos a
  /\ qr_image (snd (save a)) = qr_image a
  /\ ((exists e,
         fst (save a) = Raise e
         /\ trace (snd (save a)) = trace a ++ [StageWrite]
         /\ ((e = KeyError /\ cfg a !! "save_path" = None)
             \/ (exists dir, cfg a !! "save_path" = Some dir
                             /\ path_exists dir = Raise e)
             \/ (exists dir,
                   cfg a !! "save_path" = Some dir
                   /\ (path_exists dir = Ok true
                       \/ (path_exists dir = Ok false
                           /\ makedirs dir = Ok ()))
                   /\ path_join dir (png_name a) = Raise e)))
      \/ (exists dir e,
            fst (save a) = Ok ()
            /\ trace (snd (save a)) = trace a ++ [StageWrite; SaveResult false]
            /\ cfg a !! "save_path" = Some dir
            /\ path_exists dir = Ok false
            /\ makedirs dir = Raise e)
      \/ (exists dir file_path e,
            fst (save a) = Ok ()
            /\ trace (snd (save a))
               = trace a ++ [StageWrite; SaveResult false; ShowSaveError e]
            /\ cfg a !! "save_path" = Some dir
            /\ (path_exists dir = Ok true
                \/ (path_exists dir = Ok false /\ makedirs dir = Ok ()))
            /\ path_join dir (png_name a) = Ok file_path
            /\ (base64_b64decode (src_base64 a) = Raise e
                \/ exists img, base64_b64decode (src_base64 a) = Ok img
                               /\ write_file file_path img = Raise e))
      \/ (exists dir file_path img,
            fst (save a) = Ok ()
            /\ trace (snd (save a))
               = trace a ++ [StageWrite; FileWritten file_path img;
                             SaveResult true; ShowSuccess msg_saved]
            /\ cfg a !! "save_path" = Some dir
            /\ (path_exists dir = Ok true
                \/ (path_exists dir = Ok false /\ makedirs dir = Ok ()))
            /\ path_join dir (png_name a) = Ok file_path
            /\ base64_b64decode (src_base64 a) = Ok img
            /\ write_file file_path img = Ok ())).
Proof.
  unfold save_qr_code, dict_index, src_base64.
  cbn [log cfg fields qr_image trace].
  destruct (cfg a !! "save_path") as [dir|] eqn:Hd.
  2:{ cbn. do 5 (split; [reflexivity|]). left. exists KeyError. auto. }
  destruct (path_exists dir) as [present|e] eqn:Hp.
  2:{ cbn. do 5 (split; [reflexivity|]). left. exists e.
      split; [reflexivity|]. split; [reflexivity|]. right. left. eauto. }
  destruct present.
  - destruct (path_join dir _) as [fp|e] eqn:Hj.
    2:{ cbn. do 5 (split; [reflexivity|]). left. exists e.
        split; [reflexivity|]. split; [reflexivity|]. right. right.
        exists dir. auto. }
    unfold mbind, outcome_bind.
    destruct (base64_b64decode _) as [img|e] eqn:Hb.
    2:{ cbn. do 5 (split; [reflexivity|]). right. right. left.
        exists dir, fp, e. rewrite <- !app_assoc. cbn [app].
        repeat split; auto. }
    destruct (write_file fp img) as [[]|e] eqn:Hw.
    2:{ cbn. do 5 (split; [reflexivity|]). right. right. left.
        exists dir, fp, e. rewrite <- !app_assoc. cbn [app].
        repeat split; eauto. }
    cbn. do 5 (split; [reflexivity|]). right. right. right.
    exists dir, fp, img. rewrite <- !app_assoc. cbn [app].
    repeat split; auto.
  - destruct (makedirs dir) as [[]|e] eqn:Hm.
    2:{ cbn. do 5 (split; [reflexivity|]). right. left. exists dir, e.
        rewrite <- !app_assoc. cbn [app]. repeat split; auto. }
    destruct (path_join dir _) as [fp|e] eqn:Hj.
    2:{ cbn. do 5 (split; [reflexivity|]). left. exists e.
        split; [reflexivity|]. split; [reflexivity|]. right. right.
        exists dir. auto. }
    unfold mbind, outcome_bind.
    destruct (base64_b64decode _) as [img|e] eqn:Hb.
    2:{ cbn. do 5 (split; [reflexivity|]). right. right. left.
        exists dir, fp, e. rewrite <- !app_assoc. cbn [app].
        repeat split; auto. }
    destruct (write_file fp img) as [[]|e] eqn:Hw.
    2:{ cbn. do 5 (split; [reflexivity|]). right. right. left.
        exists dir, fp, e. rewrite <- !app_assoc. cbn [app].
        repeat split; eauto. }
    cbn. do 5 (split; [reflexivity|]). right. right. right.
    exists dir, fp, img. rewrite <- !app_assoc. cbn [app].
    repeat split; auto.
Qed.

(** [save_qr_code] changes nothing but the trace, to which it adds
    [StageWrite] and then one of four endings, each with the condition
    under which it occurs.  An exception leaves the method when
    [save_path] is missing or [os.path.exists] or [os.path.join] raises.
    A failure line alone is set when the directory is missing and cannot
    be created.  A failure line and an error message follow when the
    image text cannot be decoded or the file cannot be written.  The file
    is written, with a success line and message, when the directory
    existed or was created, the path is [save_path] joined with
    [qr_code_<id>.png], the image text was decoded and the write
    succeeded.  The image text is that of the control, which is empty
    until an image has been generated. *)
Theorem save_qr_code_outcomes (a : application) :
  fields (snd (save a)) = fields a
  /\ app_key (snd (save a)) = app_key a
  /\ cfg (snd (save a)) = cfg a
  /\ rng_pos (snd (save a)) = rng_pos a
  /\ qr_image (snd (save a)) = qr_image a
  /\ ((exists e,
         fst (save a) = Raise e
         /\ trace (snd (save a)) = trace a ++ [StageWrite]
         /\ ((e = KeyError /\ cfg a !! "save_path" = None)
             \/ (exists dir, cfg a !! "save_path" = Some dir
                             /\ path_exists dir = Raise e)
             \/ (exists dir,
                   cfg a !! "save_path" = Some dir
                   /\ (path_exists dir = Ok true
                       \/ (path_exists dir = Ok false
                           /\ makedirs dir = Ok ()))
                   /\ path_join dir (png_name a) = Raise e)))
      \/ (exists dir e,
            fst (save a) = Ok ()
            /\ trace (snd (save a)) = trace a ++ [StageWrite; SaveResult false]
            /\ cfg a !! "save_path" = Some dir
            /\ path_exists dir = Ok false
            /\ makedirs dir = Raise e)
      \/ (exists dir file_path e,
            fst (save a) = Ok ()
            /\ trace (snd (save a))
               = trace a ++ [StageWrite; SaveResult false; ShowSaveError e]
            /\ cfg a !! "save_path" = Some dir
            /\ (path_exists dir = Ok true
                \/ (path_exists dir = Ok false /\ makedirs dir = Ok ()))
            /\ path_join dir (png_name a) = Ok file_path
            /\ (base64_b64decode (src_base64 a) = Raise e
                \/ exists img, base64_b64decode (src_base64 a) = Ok img
                               /\ write_file file_path img = Raise e))
      \/ (exists dir file_path img,
            fst (save a) = Ok ()
            /\ trace (snd (save a))
               = trace a ++ [StageWrite; FileWritten file_path img;
                             SaveResult true; ShowSuccess msg_saved]
            /\ cfg a !! "save_path" = Some dir
            /\ (path_exists dir = Ok true
                \/ (path_exists dir = Ok false /\ makedirs dir = Ok ()))
            /\ path_join dir (png_name a) = Ok file_path
            /\ base64_b64decode (src_base64 a) = Ok img
            /\ write_file file_path img = Ok ())).
Proof. exact (save_qr_code_cases a). Qed.

Ltac app_simpl :=
  cbn [fst snd log set_rng set_qr_image fields app_key cfg rng_pos trace
       qr_image] in *.

Lemma application_ext (x y : application) :
  fields x = fields y -> app_key x = app_key y -> cfg x = cfg y ->
  rng_pos x = rng_pos y -> qr_image x = qr_image y -> trace x = trace y ->
  x = y.
Proof. destruct x, y. cbn. congruence. Qed.

Ltac app_finish :=
  apply application_ext; app_simpl; rewrite <- ?app_assoc; reflexivity.

Lemma generate_try_shape (a : application) :
  fields (snd (try_block a)) = fields a
  /\ app_key (snd (try_block a)) = app_key a
  /\ cfg (snd (try_block a)) = cfg a
  /\ (rng_pos (snd (try_block a)) = rng_pos a
      \/ rng_pos (snd (try_block a)) = (rng_pos a + 16)%nat)
  /\ exists mid,
       trace (snd (try_block a)) = trace a ++ mid
       /\ (fst (try_block a) = Ok () ->
           exists mid', mid = mid' ++ [ShowSuccess msg_generated]).
Proof.
  unfold generate_try. app_simpl.
  pose proof (encrypt_data_cases aes_encrypt_block entropy (app_key a)
                (collect_employee_data (fields a)) (rng_pos a)) as Ho.
  destruct (encrypt_data _ _ _ _ _) as [[env|e] pos].
  2:{ app_simpl. do 3 (split; [reflexivity|]).
      split; [destruct Ho as [(_ & _ & ->)|(_ & _ & _ & ->)]; auto|].
      eexists. rewrite <- app_assoc. split; [reflexivity | discriminate]. }
  destruct Ho as (_ & _ & ->). app_simpl.
  destruct (get_qr_size (cfg a)) as [size|e].
  2:{ app_simpl. do 3 (split; [reflexivity|]). split; [auto|].
      eexists. rewrite <- app_assoc. split; [reflexivity | discriminate]. }
  app_simpl.
  destruct (create_qr_code_image _ _ _ _ _ _) as [img|e].
  2:{ app_simpl. do 3 (split; [reflexivity|]). split; [auto|].
      eexists. rewrite <- !app_assoc. split; [reflexivity | discriminate]. }
  app_simpl.
  destruct (dict_index (cfg a) "auto_save") as [auto|e].
  2:{ app_simpl. do 3 (split; [reflexivity|]). split; [auto|].
      eexists. rewrite <- !app_assoc. split; [reflexivity | discriminate]. }
  destruct (json_truthy auto).
  - match goal with |- context [save ?x] =>
      pose proof (save_qr_code_cases x) as (Hf & Hk & Hc & Hr & _ & Ht);
      destruct (save x) as [[[]|e] a'] end; app_simpl.
    + rewrite Hf, Hk, Hc, Hr. do 3 (split; [reflexivity|]). split; [auto|].
      destruct Ht as [(e & He & _)|[(? & ? & _ & -> & _)
                                   |[(? & ? & ? & _ & -> & _)
                                    |(? & ? & ? & _ & -> & _)]]];
        [discriminate|..];
        (eexists; rewrite <- !app_assoc; split; [reflexivity|]; intros _;
         eexists; rewrite !app_assoc; reflexivity).
    + rewrite Hf, Hk, Hc, Hr. do 3 (split; [reflexivity|]). split; [auto|].
      destruct Ht as [(e' & _ & -> & _)|[(? & ? & He & _)
                                       |[(? & ? & ? & He & _)
                                        |(? & ? & ? & He & _)]]];
        try discriminate.
      eexists. rewrite <- !app_assoc. split; [reflexivity | discriminate].
  - app_simpl. do 3 (split; [reflexivity|]). split; [auto|].
    eexists. rewrite <- !app_assoc. split; [reflexivity|]. intros _.
    eexists. rewrite !app_assoc. reflexivity.
Qed.

(** [generate_qr_code] never changes the form, the key or the settings,
    and draws either no random byte or the 16 bytes of one IV.  When the
    inputs are refused it shows the validation message and nothing else
    happens.  Otherwise the loading indicator is switched on first and
    off last, whatever happens in between, and just before it is switched
    off exactly one verdict is shown: the success message or the error
    message of the exception that ended the attempt. *)
Theorem generate_qr_code_frame (a : application) :
  fields (generate a) = fields a
  /\ app_key (generate a) = app_key a
  /\ cfg (generate a) = cfg a
  /\ (rng_pos (generate a) = rng_pos a
      \/ rng_pos (generate a) = (rng_pos a + 16)%nat)
  /\ if fst (validate_inputs nd_table (fields a))
     then exists mid verdict,
            trace (generate a)
            = trace a ++ [ShowLoading true] ++ mid
                ++ [verdict; ShowLoading false]
            /\ (verdict = ShowSuccess msg_generated
                \/ exists e, verdict = ShowGenerationError e)
     else trace (generate a)
          = trace a ++ [ShowError (snd (validate_inputs nd_table (fields a)))]
          /\ rng_pos (generate a) = rng_pos a
          /\ qr_image (generate a) = qr_image a.
Proof.
  unfold generate_qr_code.
  destruct (validate_inputs nd_table (fields a)) as [[|] msg]; cbn [fst snd negb].
  2:{ app_simpl. repeat split; auto. }
  pose proof (generate_try_shape (log (ShowLoading true) a))
    as (Hf & Hk & Hc & Hr & mid & Ht & Hok).
  app_simpl.
  destruct (try_block (log (ShowLoading true) a)) as [[[]|e] a']; app_simpl.
  - do 4 (split; [assumption|]).
    destruct (Hok eq_refl) as [mid' ->].
    exists mid', (ShowSuccess msg_generated). split; [|auto].
    rewrite Ht, <- !app_assoc. reflexivity.
  - do 4 (split; [assumption|]).
    exists mid, (ShowGenerationError e). split; [|eauto].
    rewrite Ht, <- !app_assoc. reflexivity.
Qed.

Lemma create_qr_code_image_ok settings data size fg bg img q png :
  settings !! "qr_color" = Some fg ->
  settings !! "qr_bg_color" = Some bg ->
  make_image data fg bg = Ok img ->
  get_image_quality settings = Ok q ->
  save_png img q = Ok png ->
  create_qr_code_image image make_image save_png settings data size
  = Ok (b64_text png).
Proof.
  intros Hfg Hbg Hm Hq Hs. unfold create_qr_code_image.
  rewrite Hfg, Hbg. unfold default. cbn [from_option id].
  unfold mbind, outcome_bind. rewrite Hm, Hq, Hs. apply b64_text_decode.
Qed.

(** With a key that [AES.new] refuses (for instance the empty key that a
    truncated key file gives), every generation that passes validation
    ends with the error message for [ValueError]: no random byte is
    drawn, no image is made and the image shown before stays. *)
Theorem generate_qr_code_bad_key (a : application) :
  fst (validate_inputs nd_table (fields a)) = true ->
  valid_key_length (length (app_key a)) = false ->
  generate a
  = mk_app (fields a) (app_key a) (cfg a) (rng_pos a) (qr_image a)
      (trace a ++ [ShowLoading true; StageSerialize;
                   StageEncrypt (collect_employee_data (fields a));
                   ShowGenerationError ValueError; ShowLoading false]).
Proof.
  intros Hv HK. unfold generate_qr_code.
  destruct (validate_inputs nd_table (fields a)) as [v msg].
  cbn [fst] in Hv. subst v. cbn [negb].
  unfold generate_try, encrypt_data, AES_new. app_simpl. rewrite HK.
  app_simpl. app_finish.
Qed.

(** A generation without automatic saving.  If the inputs pass
    validation, the key has a length that AES accepts, the serialised
    record can be encoded and the imaging library renders the envelope,
    then the image shown is the base64 text of the rendered PNG at the
    configured size, exactly one IV was drawn, the stages ran in the
    order serialise, encrypt, encode, and no file was written. *)
Theorem generate_qr_code_shows_image
    (a : application) (plain : bytes) (size q : Z) (fg bg auto : json)
    (img : image) (png : bytes) :
  fst (validate_inputs nd_table (fields a)) = true ->
  valid_key_length (length (app_key a)) = true ->
  utf8_encode (collect_employee_data (fields a)) = Ok plain ->
  get_qr_size (cfg a) = Ok size ->
  cfg a !! "qr_color" = Some fg ->
  cfg a !! "qr_bg_color" = Some bg ->
  get_image_quality (cfg a) = Ok q ->
  make_image
    (envelope_of (random_iv entropy (rng_pos a))
       (cbc_encrypt_blocks aes_encrypt_block (length (pad plain 16) / 16)
          (app_key a) (random_iv entropy (rng_pos a)) (pad plain 16)))
    fg bg = Ok img ->
  save_png img q = Ok png ->
  cfg a !! "auto_save" = Some auto ->
  json_truthy auto = false ->
  generate a
  = mk_app (fields a) (app_key a) (cfg a) (rng_pos a + 16)
      (Some (b64_text png, size))
      (trace a ++ [ShowLoading true; StageSerialize;
                   StageEncrypt (collect_employee_data (fields a));
                   StageEncode
                     (envelope_of (random_iv entropy (rng_pos a))
                        (cbc_encrypt_blocks aes_encrypt_block
                           (length (pad plain 16) / 16) (app_key a)
                           (random_iv entropy (rng_pos a)) (pad plain 16)));
                   ShowSuccess msg_generated; ShowLoading false]).
Proof.
  intros Hv HK Hp Hs Hfg Hbg Hq Hm Hpng Hauto Hf. unfold generate_qr_code.
  destruct (validate_inputs nd_table (fields a)) as [v msg].
  cbn [fst] in Hv. subst v. cbn [negb].
  unfold generate_try. app_simpl.
  rewrite (encrypt_data_valid_key _ _ _ _ _ plain HK Hp). app_simpl.
  rewrite Hs. app_simpl.
  rewrite (create_qr_code_image_ok _ _ _ fg bg img q png Hfg Hbg Hm Hq Hpng).
  app_simpl. unfold dict_index. rewrite Hauto, Hf.
  app_finish.
Qed.

(** A generation with automatic saving.  Under the conditions of the
    previous theorem, if moreover the directory exists or can be created,
    [base64.b64decode] inverts the base64 text and the file can be
    written, then the file [qr_code_<id>.png] under [save_path] receives
    exactly the PNG bytes that the imaging library produced for the
    envelope, after the image was encoded and before the final message. *)
Theorem generate_qr_code_saves_image
    (a : application) (plain : bytes) (size q : Z) (fg bg auto dir : json)
    (img : image) (png : bytes) (file_path : str) :
  fst (validate_inputs nd_table (fields a)) = true ->
  valid_key_length (length (app_key a)) = true ->
  utf8_encode (collect_employee_data (fields a)) = Ok plain ->
  get_qr_size (cfg a) = Ok size ->
  cfg a !! "qr_color" = Some fg ->
  cfg a !! "qr_bg_color" = Some bg ->
  get_image_quality (cfg a) = Ok q ->
  make_image
    (envelope_of (random_iv entropy (rng_pos a))
       (cbc_encrypt_blocks aes_encrypt_block (length (pad plain 16) / 16)
          (app_key a) (random_iv entropy (rng_pos a)) (pad plain 16)))
    fg bg = Ok img ->
  save_png img q = Ok png ->
  cfg a !! "auto_save" = Some auto ->
  json_truthy auto = true ->
  cfg a !! "save_path" = Some dir ->
  (path_exists dir = Ok true
   \/ (path_exists dir = Ok false /\ makedirs dir = Ok ())) ->
  path_join dir (lit "qr_code_" ++ employee_id (fields a) ++ lit ".png")
  = Ok file_path ->
  base64_b64decode (b64_text png) = Ok png ->
  write_file file_path png = Ok () ->
  generate a
  = mk_app (fields a) (app_key a) (cfg a) (rng_pos a + 16)
      (Some (b64_text png, size))
      (trace a ++ [ShowLoading true; StageSerialize;
                   StageEncrypt (collect_employee_data (fields a));
                   StageEncode
                     (envelope_of (random_iv entropy (rng_pos a))
                        (cbc_encrypt_blocks aes_encrypt_block
                           (length (pad plain 16) / 16) (app_key a)
                           (random_iv entropy (rng_pos a)) (pad plain 16)));
                   StageWrite; FileWritten file_path png; SaveResult true;
                   ShowSuccess msg_saved; ShowSuccess msg_generated;
                   ShowLoading false]).
Proof.
  intros Hv HK Hp Hs Hfg Hbg Hq Hm Hpng Hauto Ht Hdir Hex Hj Hdec Hw.
  unfold generate_qr_code.
  destruct (validate_inputs nd_table (fields a)) as [v msg].
  cbn [fst] in Hv. subst v. cbn [negb].
  unfold generate_try. app_simpl.
  rewrite (encrypt_data_valid_key _ _ _ _ _ plain HK Hp). app_simpl.
  rewrite Hs. app_simpl.
  rewrite (create_qr_code_image_ok _ _ _ fg bg img q png Hfg Hbg Hm Hq Hpng).
  app_simpl. unfold dict_index at 1. rewrite Hauto, Ht.
  unfold save_qr_code, dict_index. app_simpl. rewrite Hdir.
  assert (Hmade : match path_exists dir with
                  | Ok present => (if present then Ok () else makedirs dir)
                                  = Ok ()
                  | Raise _ => False
                  end).
  { destruct Hex as [->|[-> ->]]; reflexivity. }
  destruct (path_exists dir) as [present|]; [|contradiction].
  rewrite Hmade, Hj. unfold mbind, outcome_bind, src_base64. app_simpl.
  rewrite Hdec, Hw.
  app_finish.
Qed.

(** When the directory is missing and cannot be created, automatic saving
    writes nothing and only marks the save as failed; the image is shown
    and the generation still ends with its success message. *)
Theorem generate_qr_code_directory_not_created
    (a : application) (plain : bytes) (size q : Z) (fg bg auto dir : json)
    (img : image) (png : bytes) (e : exn) :
  fst (validate_inputs nd_table (fields a)) = true ->
  valid_key_length (length (app_key a)) = true ->
  utf8_encode (collect_employee_data (fields a)) = Ok plain ->
  get_qr_size (cfg a) = Ok size ->
  cfg a !! "qr_color" = Some fg ->
  cfg a !! "qr_bg_color" = Some bg ->
  get_image_quality (cfg a) = Ok q ->
  make_image
    (envelope_of (random_iv entropy (rng_pos a))
       (cbc_encrypt_blocks aes_encrypt_block (length (pad plain 16) / 16)
          (app_key a) (random_iv entropy (rng_pos a)) (pad plain 16)))
    fg bg = Ok img ->
  save_png img q = Ok png ->
  cfg a !! "auto_save" = Some auto ->
  json_truthy auto = true ->
  cfg a !! "save_path" = Some dir ->
  path_exists dir = Ok false ->
  makedirs dir = Raise e ->
  generate a
  = mk_app (fields a) (app_key a) (cfg a) (rng_pos a + 16)
      (Some (b64_text png, size))
      (trace a ++ [ShowLoading true; StageSerialize;
                   StageEncrypt (collect_employee_data (fields a));
                   StageEncode
                     (envelope_of (random_iv entropy (rng_pos a))
                        (cbc_encrypt_blocks aes_encrypt_block
                           (length (pad plain 16) / 16) (app_key a)
                           (random_iv entropy (rng_pos a)) (pad plain 16)));
                   StageWrite; SaveResult false; ShowSuccess msg_generated;
                   ShowLoading false]).
Proof.
  intros Hv HK Hp Hs Hfg Hbg Hq Hm Hpng Hauto Ht Hdir Hex Hmk.
  unfold generate_qr_code.
  destruct (validate_inputs nd_table (fields a)) as [v msg].
  cbn [fst] in Hv. subst v. cbn [negb].
  unfold generate_try. app_simpl.
  rewrite (encrypt_data_valid_key _ _ _ _ _ plain HK Hp). app_simpl.
  rewrite Hs. app_simpl.
  rewrite (create_qr_code_image_ok _ _ _ fg bg img q png Hfg Hbg Hm Hq Hpng).
  app_simpl. unfold dict_index at 1. rewrite Hauto, Ht.
  unfold save_qr_code, dict_index. app_simpl. rewrite Hdir, Hex, Hmk.
  app_finish.
Qed.

End PipelineProperties.

Lemma sample_b64decode_text png : sample_b64decode (b64_text png) = Ok png.
Proof.
  unfold sample_b64decode. rewrite b64_text_encode.
  unfold mbind, outcome_bind. apply b64decode_encode.
Qed.

Lemma generate_qr_code_bad_key_witness :
  generate_qr_code _ sample_make_image sample_save_png sample_path_exists
    sample_makedirs sample_path_join sample_write_file sample_b64decode
    xor_block sample_entropy ascii_digits_only empty_key_application
  = mk_app scenario_form [] default_settings 0 None
      [ShowLoading true; StageSerialize;
       StageEncrypt (collect_employee_data scenario_form);
       ShowGenerationError ValueError; ShowLoading false].
Proof.
  apply (generate_qr_code_bad_key _ sample_make_image sample_save_png
           sample_path_exists sample_makedirs sample_path_join
           sample_write_file sample_b64decode xor_block sample_entropy
           ascii_digits_only empty_key_application); reflexivity.
Defined.

Lemma generate_qr_code_shows_image_witness :
  generate_qr_code _ sample_make_image sample_save_png sample_path_exists
    sample_makedirs sample_path_join sample_write_file sample_b64decode
    xor_block sample_entropy ascii_digits_only sample_application
  = mk_app scenario_form sample_key default_settings 16
      (Some (b64_text (list_byte_of_string "PNG"), 300%Z))
      [ShowLoading true; StageSerialize;
       StageEncrypt (collect_employee_data scenario_form);
       StageEncode scenario_envelope;
       ShowSuccess msg_generated; ShowLoading false].
Proof.
  apply (generate_qr_code_shows_image _ sample_make_image sample_save_png
           sample_path_exists sample_makedirs sample_path_join
           sample_write_file sample_b64decode xor_block sample_entropy
           ascii_digits_only sample_application scenario_plain 300%Z 90%Z
           (JStr (lit "#000000")) (JStr (lit "#FFFFFF")) (JBool false)
           (scenario_envelope, JStr (lit "#000000"), JStr (lit "#FFFFFF"))
           (list_byte_of_string "PNG")); reflexivity.
Defined.

Lemma generate_qr_code_saves_image_witness :
  generate_qr_code _ sample_make_image sample_save_png sample_path_exists
    sample_makedirs sample_path_join sample_write_file sample_b64decode
    xor_block sample_entropy ascii_digits_only autosave_application
  = mk_app scenario_form sample_key
      (<["auto_save" := JBool true]> default_settings) 16
      (Some (b64_text (list_byte_of_string "PNG"), 300%Z))
      [ShowLoading true; StageSerialize;
       StageEncrypt (collect_employee_data scenario_form);
       StageEncode scenario_envelope;
       StageWrite;
       FileWritten (lit "/home/user/QR-pass/qr_code_12345.png")
         (list_byte_of_string "PNG");
       SaveResult true; ShowSuccess msg_saved;
       ShowSuccess msg_generated; ShowLoading false].
Proof.
  apply (generate_qr_code_saves_image _ sample_make_image sample_save_png
           sample_path_exists sample_makedirs sample_path_join
           sample_write_file sample_b64decode xor_block sample_entropy
           ascii_digits_only autosave_application scenario_plain 300%Z 90%Z
           (JStr (lit "#000000")) (JStr (lit "#FFFFFF")) (JBool true)
           (JStr (lit "/home/user/QR-pass"))
           (scenario_envelope, JStr (lit "#000000"), JStr (lit "#FFFFFF"))
           (list_byte_of_string "PNG")
           (lit "/home/user/QR-pass/qr_code_12345.png"));
    first [reflexivity | left; reflexivity | apply sample_b64decode_text].
Defined.

Lemma generate_qr_code_directory_not_created_witness :
  generate_qr_code _ sample_make_image sample_save_png missing_path_exists
    failing_makedirs sample_path_join sample_write_file sample_b64decode
    xor_block sample_entropy ascii_digits_only autosave_application
  = mk_app scenario_form sample_key
      (<["auto_save" := JBool true]> default_settings) 16
      (Some (b64_text (list_byte_of_string "PNG"), 300%Z))
      [ShowLoading true; StageSerialize;
       StageEncrypt (collect_employee_data scenario_form);
       StageEncode scenario_envelope;
       StageWrite; SaveResult false; ShowSuccess msg_generated;
       ShowLoading false].
Proof.
  apply (generate_qr_code_directory_not_created _ sample_make_image
           sample_save_png missing_path_exists failing_makedirs
           sample_path_join sample_write_file sample_b64decode xor_block
           sample_entropy ascii_digits_only autosave_application
           scenario_plain 300%Z 90%Z
           (JStr (lit "#000000")) (JStr (lit "#FFFFFF")) (JBool true)
           (JStr (lit "/home/user/QR-pass"))
           (scenario_envelope, JStr (lit "#000000"), JStr (lit "#FFFFFF"))
           (list_byte_of_string "PNG") PermissionError); reflexivity.
Defined.

(** ** Encryption under the stored key *)

Lemma decrypt_encrypt_valid_key
    (E D : bytes -> bytes -> bytes) (entropy : nat -> byte)
    (KEY : bytes) (data : str) (pos : nat) :
  (forall b, length b = 16%nat ->
             length (E KEY b) = 16%nat /\ D KEY (E KEY b) = b) ->
  valid_key_length (length KEY) = true ->
  encodable data = true ->
  exists envelope,
    encrypt_data E entropy KEY data pos = (Ok envelope, (pos + 16)%nat)
    /\ decrypt_data D KEY envelope = Ok data.
Proof.
  intros Hb HK Hd. destruct (utf8_encode_encodable data Hd) as [plain Hp].
  eexists. split; [apply (encrypt_data_valid_key E entropy KEY data pos plain HK Hp)|].
  set (iv := random_iv entropy pos).
  assert (Hiv : length iv = 16%nat) by apply get_random_bytes_length.
  set (n := (length (pad plain 16) / 16)%nat).
  assert (Hn : length (pad plain 16) = (16 * n)%nat) by apply pad_blocks.
  pose proof (cbc_encrypt_blocks_length E D KEY Hb n iv (pad plain 16) Hiv Hn)
    as Hct.
  unfold decrypt_data, envelope_of.
  rewrite split_on_app by apply b64_text_no_colon.
  rewrite split_on_none by apply b64_text_no_colon.
  rewrite !b64_text_encode. unfold mbind, outcome_bind.
  rewrite !b64decode_encode.
  unfold cbc_decrypt. rewrite HK, Hiv, Hct.
  replace ((16 * n) mod 16)%nat with 0%nat
    by (symmetry; rewrite Nat.mul_comm; apply Nat.Div0.mod_mul).
  replace (16 * n / 16)%nat with n
    by (symmetry; rewrite Nat.mul_comm; apply Nat.div_mul; lia).
  cbn [Nat.eqb andb].
  rewrite (cbc_decrypt_encrypt_blocks E D KEY Hb n iv (pad plain 16) Hiv Hn).
  unfold AES_block_size. rewrite unpad_pad.
  apply utf8_decode_encode, Hp.
Qed.

(** The round trip does not depend on the key being 32 bytes long: with
    any key that [AES.new] accepts (16, 24 or 32 bytes) on which the
    block function is a permutation, the envelope decrypts to the text. *)
Theorem decrypt_data_encrypt_data_any_key
    (E D : bytes -> bytes -> bytes) (entropy : nat -> byte)
    (KEY : bytes) (data : str) (pos : nat) :
  (forall b, length b = 16%nat ->
             length (E KEY b) = 16%nat /\ D KEY (E KEY b) = b) ->
  valid_key_length (length KEY) = true ->
  encodable data = true ->
  exists envelope,
    encrypt_data E entropy KEY data pos = (Ok envelope, (pos + 16)%nat)
    /\ decrypt_data D KEY envelope = Ok data.
Proof. exact (decrypt_encrypt_valid_key E D entropy KEY data pos). Qed.

Lemma xor_block_permutation_16 k b :
  (16 <= length k)%nat -> length b = 16%nat ->
  length (xor_block k b) = 16%nat /\ xor_block k (xor_block k b) = b.
Proof.
  intros Hk Hb. unfold xor_block.
  assert (Ht : length (take 16 k) = 16%nat) by (rewrite length_take; lia).
  split; [rewrite strxor_length; lia | apply strxor_cancel; congruence].
Qed.

Lemma decrypt_data_encrypt_data_any_key_witness :
  exists envelope,
    encrypt_data xor_block sample_entropy (take 16 sample_key) (lit "hi") 0
    = (Ok envelope, (0 + 16)%nat)
    /\ decrypt_data xor_block (take 16 sample_key) envelope = Ok (lit "hi").
Proof.
  apply (decrypt_data_encrypt_data_any_key xor_block xor_block sample_entropy
           (take 16 sample_key) (lit "hi") 0).
  - intros b Hb. apply xor_block_permutation_16; [vm_compute; lia | exact Hb].
  - reflexivity.
  - reflexivity.
Defined.

(** What is encrypted after a first start on a machine without key file
    can be decrypted after the next start: the first start writes the key
    it uses, the next start reads that key back, and under it the
    envelope of any encodable text decrypts to the text. *)
Theorem first_start_envelope_decrypts_after_restart
    (E D : bytes -> bytes -> bytes) (entropy entropy' : nat -> byte)
    (data : str) (pos pos' : nat) (w' : write_behaviour) :
  (forall k b, length k = 32%nat -> length b = 16%nat ->
               length (E k b) = 16%nat /\ D k (E k b) = b) ->
  encodable data = true ->
  exists k envelope,
    KEY (load_or_generate_key entropy (mk_key_file None None WriteOk) pos)
    = Some k
    /\ length k = 32%nat
    /\ fst (encrypt_data E entropy k data
              (ks_pos (load_or_generate_key entropy
                         (mk_key_file None None WriteOk) pos)))
       = Ok envelope
    /\ KEY (load_or_generate_key entropy'
              (mk_key_file
                 (ks_file (load_or_generate_key entropy
                             (mk_key_file None None WriteOk) pos))
                 None w') pos')
       = Some k
    /\ decrypt_data D k envelope = Ok data.
Proof.
  intros Hperm Hd.
  set (k := map entropy (seq pos 32)).
  assert (Hk : length k = 32%nat) by (subst k; by rewrite length_map, length_seq).
  destruct (decrypt_encrypt_valid_key E D entropy k data (pos + 32)
              (fun b => Hperm k b Hk)) as (env & Henc & Hdec);
    [by rewrite Hk | exact Hd |].
  exists k, env. split; [reflexivity|]. split; [exact Hk|].
  split.
  { change (ks_pos (load_or_generate_key entropy
                      (mk_key_file None None WriteOk) pos))
      with (pos + 32)%nat.
    by rewrite Henc. }
  split; [reflexivity | exact Hdec].
Qed.

Lemma first_start_envelope_decrypts_after_restart_witness :
  exists k envelope,
    KEY (load_or_generate_key sample_entropy (mk_key_file None None WriteOk) 0)
    = Some k
    /\ length k = 32%nat
    /\ fst (encrypt_data xor_block sample_entropy k (lit "hi")
              (ks_pos (load_or_generate_key sample_entropy
                         (mk_key_file None None WriteOk) 0)))
       = Ok envelope
    /\ KEY (load_or_generate_key sample_entropy
              (mk_key_file
                 (ks_file (load_or_generate_key sample_entropy
                             (mk_key_file None None WriteOk) 0))
                 None WriteOk) 48)
       = Some k
    /\ decrypt_data xor_block k envelope = Ok (lit "hi").
Proof.
  apply (first_start_envelope_decrypts_after_restart xor_block xor_block
           sample_entropy sample_entropy (lit "hi") 0 48 WriteOk).
  - exact xor_block_permutation.
  - reflexivity.
Defined.

(** ** Colours *)

(** [validate_color] accepts exactly the texts made of [#], then three or
    six hexadecimal digits, then nothing or one final newline; in
    particular every [#RGB] and [#RRGGBB] colour is accepted and anything
    without the leading [#], with another digit count or with another
    character among the digits is refused. *)
Theorem validate_color_accepted_set (s : str) :
  validate_color s = true <->
  exists h, Forall (fun c => class_hex c = true) h
            /\ (length h = 3%nat \/ length h = 6%nat)
            /\ (s = 35 :: h \/ s = 35 :: h ++ [10]).
Proof. exact (validate_color_iff s). Qed.
